(** * registry-creds: the credential refresh controller (aws_credentials.go)

    A shallow embedding of the controller that refreshes the GCR and ECR
    image-pull secrets of every namespace, and the properties of its
    reconciliation loop.

    The program talks to three collaborators through Go interfaces
    ([kubeInterface], [ecrInterface], [gcrInterface]).  They are modelled
    as follows.
    - The cluster is an in-memory store ([Cluster]) that answers requests
      the way the API server does (get of a missing object is NotFound,
      create of an existing one is AlreadyExists, update of a missing one
      is NotFound).  The kube client adds failures: a [kubeInterface] is a
      fault oracle, which may make the n-th request fail with any error,
      leaving the store as it was.
    - The ECR and GCR clients are oracles giving the reply to their n-th
      call.
    - Every request, log line and line on standard output is recorded in
      the [World], which all operations thread explicitly. *)

From Stdlib Require Import String Ascii List ZArith DecimalString.
From Stdlib.Strings Require Import Byte.
From stdpp Require Import gmap strings list fin_maps.

Local Open Scope string_scope.
Local Open Scope list_scope.

(** ** Strings and formatting *)

(** The double quote character, and a string between double quotes. *)
Definition dquote : string := String "034"%char EmptyString.
Definition quoted (s : string) : string := dquote +:+ s +:+ dquote.

(** [fmt.Sprintf] for the formats of this program: the verbs are [%s] and
    [%v], and every operand is a string or an error given by its message
    (both verbs print it as it is).  An operand is copied and is not
    scanned for verbs; a verb without operand prints as Go does. *)
Fixpoint Sprintf (format : string) (args : list string) : string :=
  match format with
  | EmptyString => EmptyString
  | String "%"%char (String "s"%char rest) =>
      match args with
      | a :: args' => a +:+ Sprintf rest args'
      | [] => "%!s(MISSING)" +:+ Sprintf rest []
      end
  | String "%"%char (String "v"%char rest) =>
      match args with
      | a :: args' => a +:+ Sprintf rest args'
      | [] => "%!v(MISSING)" +:+ Sprintf rest []
      end
  | String ch rest => String ch (Sprintf rest args)
  end.

(** Lines 46-49. *)
Definition dockerCfgTemplate : string :=
  "{" +:+ quoted "%s" +:+ ":{" +:+ quoted "username" +:+ ":" +:+ quoted "oauth2accesstoken"
      +:+ "," +:+ quoted "password" +:+ ":" +:+ quoted "%s"
      +:+ "," +:+ quoted "email" +:+ ":" +:+ quoted "none" +:+ "}}".

Definition dockerJSONTemplate : string :=
  "{" +:+ quoted "auths" +:+ ":{" +:+ quoted "%s" +:+ ":{" +:+ quoted "auth" +:+ ":" +:+ quoted "%s"
      +:+ "," +:+ quoted "email" +:+ ":" +:+ quoted "none" +:+ "}}}".

(** Substring test, used to look for a message in the log. *)
Fixpoint contains (needle hay : string) : bool :=
  String.prefix needle hay
  || match hay with
     | EmptyString => false
     | String _ hay' => contains needle hay'
     end.

(** ** Kubernetes API objects (the fields the controller uses) *)

Module api.

Record Namespace := { ns_Name : string }.

Record Secret := {
  secret_Name : string;                    (* ObjectMeta.Name *)
  secret_Data : gmap string (list byte);   (* map[string][]byte *)
  secret_Type : string
}.

Record LocalObjectReference := { ref_Name : string }.

Record ServiceAccount := {
  sa_Name : string;                        (* ObjectMeta.Name *)
  sa_ImagePullSecrets : list LocalObjectReference
}.

End api.
Import api.

Definition GetName (namespace : Namespace) : string := ns_Name namespace.

(** ** Errors and outcomes *)

(** A Go [error] value.  The program only tests errors against nil and
    prints them; the constructors keep apart what the collaborators
    report. *)
Inductive error : Type :=
| StatusNotFound (resource name : string)       (* API status, reason NotFound *)
| StatusAlreadyExists (resource name : string)  (* API status, reason AlreadyExists *)
| StatusFailure (msg : string)                  (* any other failure of a request *)
| RemoteError (msg : string)                    (* reported by ECR or by oauth2 *)
| ErrorString (msg : string).                   (* made by fmt.Errorf *)

Definition Error (e : error) : string :=
  match e with
  | StatusNotFound resource name => resource +:+ " " +:+ quoted name +:+ " not found"
  | StatusAlreadyExists resource name => resource +:+ " " +:+ quoted name +:+ " already exists"
  | StatusFailure msg => msg
  | RemoteError msg => msg
  | ErrorString msg => msg
  end.

Definition IsNotFound (e : error) : bool :=
  match e with StatusNotFound _ _ => true | _ => false end.

(** [fmt.Errorf] with a format and string operands. *)
Definition Errorf (format : string) (args : list string) : error :=
  ErrorString (Sprintf format args).

(** A run-time panic of the Go run time: it unwinds the whole program. *)
Inductive panic : Type :=
| IndexOutOfRange (index len : nat)
| NilDereference.

(** What a call gives back: a value with a nil error, a non-nil error, or
    a panic. *)
Inductive Outcome (A : Type) : Type :=
| Ok (a : A)
| Err (e : error)
| Panicked (p : panic).
Arguments Ok {A} a.
Arguments Err {A} e.
Arguments Panicked {A} p.

(** ** The cluster and the world *)

Record Cluster := {
  namespaces : list Namespace;
  secrets : gmap (string * string) Secret;                  (* by namespace and name *)
  serviceAccounts : gmap (string * string) (list LocalObjectReference)
    (* by namespace and name: the image pull secrets of the account *)
}.

(** The requests of [kubeInterface] that the controller makes. *)
Inductive ApiCall : Type :=
| NamespacesList
| SecretsGet (namespace name : string)
| SecretsCreate (namespace : string) (secret : Secret)
| SecretsUpdate (namespace : string) (secret : Secret)
| ServiceAccountsGet (namespace name : string)
| ServiceAccountsUpdate (namespace : string) (serviceAccount : ServiceAccount).

(** The namespace a request is scoped to. *)
Definition callNamespace (call : ApiCall) : option string :=
  match call with
  | NamespacesList => None
  | SecretsGet ns _ | SecretsCreate ns _ | SecretsUpdate ns _
  | ServiceAccountsGet ns _ | ServiceAccountsUpdate ns _ => Some ns
  end.

Record World := {
  cluster : Cluster;
  apiCalls : list ApiCall;    (* requests made so far, oldest first *)
  ecrCalls : nat;             (* calls of GetAuthorizationToken so far *)
  gcrCalls : nat;             (* calls of DefaultTokenSource so far *)
  logOutput : list string;    (* messages of the log package, oldest first *)
  stdOutput : list string     (* lines printed on standard output *)
}.

Definition setCluster (cl : Cluster) (w : World) : World :=
  {| cluster := cl; apiCalls := apiCalls w; ecrCalls := ecrCalls w;
     gcrCalls := gcrCalls w; logOutput := logOutput w; stdOutput := stdOutput w |}.

Definition recordCall (call : ApiCall) (w : World) : World :=
  {| cluster := cluster w; apiCalls := apiCalls w ++ [call]; ecrCalls := ecrCalls w;
     gcrCalls := gcrCalls w; logOutput := logOutput w; stdOutput := stdOutput w |}.

Definition countEcr (w : World) : World :=
  {| cluster := cluster w; apiCalls := apiCalls w; ecrCalls := S (ecrCalls w);
     gcrCalls := gcrCalls w; logOutput := logOutput w; stdOutput := stdOutput w |}.

Definition countGcr (w : World) : World :=
  {| cluster := cluster w; apiCalls := apiCalls w; ecrCalls := ecrCalls w;
     gcrCalls := S (gcrCalls w); logOutput := logOutput w; stdOutput := stdOutput w |}.

Definition addLog (line : string) (w : World) : World :=
  {| cluster := cluster w; apiCalls := apiCalls w; ecrCalls := ecrCalls w;
     gcrCalls := gcrCalls w; logOutput := logOutput w ++ [line]; stdOutput := stdOutput w |}.

Definition addStdout (line : string) (w : World) : World :=
  {| cluster := cluster w; apiCalls := apiCalls w; ecrCalls := ecrCalls w;
     gcrCalls := gcrCalls w; logOutput := logOutput w; stdOutput := stdOutput w ++ [line] |}.

(** ** The monad of the controller's code: state and outcome *)

Definition M (A : Type) : Type := World → Outcome A * World.

Definition ret {A} (a : A) : M A := λ w, (Ok a, w).

Definition bind {A B} (m : M A) (k : A → M B) : M B :=
  λ w, match m w with
       | (Ok a, w') => k a w'
       | (Err e, w') => (Err e, w')
       | (Panicked p, w') => (Panicked p, w')
       end.

(** [return err] and a panic. *)
Definition fail {A} (e : error) : M A := λ w, (Err e, w).
Definition raise {A} (p : panic) : M A := λ w, (Panicked p, w).

(** A call whose error the caller inspects instead of returning it. *)
Definition attempt {A} (m : M A) : M (error + A) :=
  λ w, match m w with
       | (Ok a, w') => (Ok (inr a), w')
       | (Err e, w') => (Ok (inl e), w')
       | (Panicked p, w') => (Panicked p, w')
       end.

Declare Scope go_scope.
Delimit Scope go_scope with go.
Notation "x <~ m ; k" := (bind m (λ x, k))
  (at level 100, m at next level, right associativity) : go_scope.
Notation "m ;; k" := (bind m (λ _, k))
  (at level 100, right associativity) : go_scope.
Local Open Scope go_scope.

(** [for _, x := range l { body }], where the body may return early. *)
Fixpoint forEach {A} (l : list A) (body : A → M unit) : M unit :=
  match l with
  | [] => ret tt
  | x :: l' => body x;; forEach l' body
  end.

Definition log_Print (line : string) : M unit := λ w, (Ok tt, addLog line w).
Definition fmt_Println (line : string) : M unit := λ w, (Ok tt, addStdout line w).

(** ** The three clients and the controller (lines 68-86) *)

(** The kube client, as the failures it adds to the cluster's own answers:
    [apiFault n call = Some e] makes the n-th request of the process,
    which is [call], fail with [e] and leave the cluster as it was. *)
Record kubeInterface := {
  apiFault : nat → ApiCall → option error
}.

Module ecr.

Record AuthorizationData := {
  AuthorizationToken : option string;    (* *string *)
  ProxyEndpoint : option string          (* *string *)
}.

Record GetAuthorizationTokenInput := {
  RegistryIds : list string
}.

Record GetAuthorizationTokenOutput := {
  AuthorizationData_ : list (option AuthorizationData)   (* []*AuthorizationData *)
}.

End ecr.

(** The reply to the n-th call of GetAuthorizationToken. *)
Record ecrInterface := {
  GetAuthorizationToken :
    nat → ecr.GetAuthorizationTokenInput → error + ecr.GetAuthorizationTokenOutput
}.

Module oauth2.

(** A token, with what its methods [Valid] and [Type] answer. *)
Record Token := {
  AccessToken : string;
  Valid : bool;
  Type_ : string
}.

Record TokenSource := {
  Token_ : error + Token     (* the result of ts.Token() *)
}.

End oauth2.

(** The reply to the n-th call of DefaultTokenSource with the given scopes. *)
Record gcrInterface := {
  DefaultTokenSource : nat → list string → error + oauth2.TokenSource
}.

Record controller := {
  kubeClient : kubeInterface;
  ecrClient : ecrInterface;
  gcrClient : gcrInterface
}.

(** The flags (lines 51-62) and the account id (line 65), as they stand
    once the command line and the environment have been read. *)
Record Flags := {
  argAWSSecretName : string;
  argGCRSecretName : string;
  argGCRURL : string;
  argAWSRegion : string;
  argRefreshMinutes : Z;
  awsAccountID : string
}.

Definition defaultFlags : Flags :=
  {| argAWSSecretName := "awsecr-cred";
     argGCRSecretName := "gcr-secret";
     argGCRURL := "https://gcr.io";
     argAWSRegion := "us-east-1";
     argRefreshMinutes := 60;
     awsAccountID := "" |}.

(** ** Requests to the cluster *)

Definition setSecrets (m : gmap (string * string) Secret) (cl : Cluster) : Cluster :=
  {| namespaces := namespaces cl; secrets := m; serviceAccounts := serviceAccounts cl |}.

Definition setServiceAccounts (m : gmap (string * string) (list LocalObjectReference))
  (cl : Cluster) : Cluster :=
  {| namespaces := namespaces cl; secrets := secrets cl; serviceAccounts := m |}.

(** The answer of the API server to a request, and the cluster after it. *)
Inductive Reply : Type :=
| ReplyNamespaces (items : list Namespace)
| ReplySecret (secret : Secret)
| ReplyServiceAccount (serviceAccount : ServiceAccount).

Definition serve (call : ApiCall) (cl : Cluster) : (error + Reply) * Cluster :=
  match call with
  | NamespacesList => (inr (ReplyNamespaces (namespaces cl)), cl)
  | SecretsGet ns name =>
      match secrets cl !! (ns, name) with
      | Some s => (inr (ReplySecret s), cl)
      | None => (inl (StatusNotFound "secrets" name), cl)
      end
  | SecretsCreate ns s =>
      match secrets cl !! (ns, secret_Name s) with
      | Some _ => (inl (StatusAlreadyExists "secrets" (secret_Name s)), cl)
      | None => (inr (ReplySecret s), setSecrets (<[(ns, secret_Name s) := s]> (secrets cl)) cl)
      end
  | SecretsUpdate ns s =>
      match secrets cl !! (ns, secret_Name s) with
      | Some _ => (inr (ReplySecret s), setSecrets (<[(ns, secret_Name s) := s]> (secrets cl)) cl)
      | None => (inl (StatusNotFound "secrets" (secret_Name s)), cl)
      end
  | ServiceAccountsGet ns name =>
      match serviceAccounts cl !! (ns, name) with
      | Some refs =>
          (inr (ReplyServiceAccount {| sa_Name := name; sa_ImagePullSecrets := refs |}), cl)
      | None => (inl (StatusNotFound "serviceaccounts" name), cl)
      end
  | ServiceAccountsUpdate ns sa =>
      match serviceAccounts cl !! (ns, sa_Name sa) with
      | Some _ =>
          (inr (ReplyServiceAccount sa),
           setServiceAccounts
             (<[(ns, sa_Name sa) := sa_ImagePullSecrets sa]> (serviceAccounts cl)) cl)
      | None => (inl (StatusNotFound "serviceaccounts" (sa_Name sa)), cl)
      end
  end.

(** One request through the kube client: it is recorded, then it fails if
    the client says so, and is served by the cluster otherwise. *)
Definition request (kube : kubeInterface) (call : ApiCall) : M Reply :=
  λ w,
    let w1 := recordCall call w in
    match apiFault kube (length (apiCalls w)) call with
    | Some e => (Err e, w1)
    | None =>
        match serve call (cluster w) with
        | (inl e, _) => (Err e, w1)
        | (inr r, cl) => (Ok r, setCluster cl w1)
        end
    end.

Definition Namespaces_List (kube : kubeInterface) : M (list Namespace) :=
  r <~ request kube NamespacesList;
  ret (match r with ReplyNamespaces items => items | _ => [] end).

Definition Secrets_Get (kube : kubeInterface) (namespace name : string) : M unit :=
  request kube (SecretsGet namespace name);; ret tt.

Definition Secrets_Create (kube : kubeInterface) (namespace : string) (s : Secret) : M unit :=
  request kube (SecretsCreate namespace s);; ret tt.

Definition Secrets_Update (kube : kubeInterface) (namespace : string) (s : Secret) : M unit :=
  request kube (SecretsUpdate namespace s);; ret tt.

Definition ServiceAccounts_Get (kube : kubeInterface) (namespace name : string)
  : M ServiceAccount :=
  r <~ request kube (ServiceAccountsGet namespace name);
  ret (match r with
       | ReplyServiceAccount sa => sa
       | _ => {| sa_Name := name; sa_ImagePullSecrets := [] |}
       end).

Definition ServiceAccounts_Update (kube : kubeInterface) (namespace : string)
  (sa : ServiceAccount) : M unit :=
  request kube (ServiceAccountsUpdate namespace sa);; ret tt.

(** ** Token providers (lines 128-174) *)

Record AuthToken := {
  AccessToken : string;
  Endpoint : string
}.

Definition gcr_DefaultTokenSource (gcr : gcrInterface) (scope : list string)
  : M oauth2.TokenSource :=
  λ w, match DefaultTokenSource gcr (gcrCalls w) scope with
       | inl err => (Err err, countGcr w)
       | inr ts => (Ok ts, countGcr w)
       end.

Definition ts_Token (ts : oauth2.TokenSource) : M oauth2.Token :=
  match oauth2.Token_ ts with
  | inl err => fail err
  | inr token => ret token
  end.

Definition ecr_GetAuthorizationToken (client : ecrInterface)
  (input : ecr.GetAuthorizationTokenInput) : M ecr.GetAuthorizationTokenOutput :=
  λ w, match GetAuthorizationToken client (ecrCalls w) input with
       | inl err => (Err err, countEcr w)
       | inr resp => (Ok resp, countEcr w)
       end.

(** [l[i]] on a slice and [*p] on a pointer, with their panics. *)
Definition index {A} (l : list A) (i : nat) : M A :=
  match l !! i with
  | Some x => ret x
  | None => raise (IndexOutOfRange i (length l))
  end.

Definition deref {A} (p : option A) : M A :=
  match p with
  | Some x => ret x
  | None => raise NilDereference
  end.

Definition getGCRAuthorizationKey (c : controller) (fl : Flags) : M AuthToken :=
  r <~ attempt (gcr_DefaultTokenSource (gcrClient c)
                  ["https://www.googleapis.com/auth/cloud-platform"]);
  match r with
  | inl err => log_Print "getting creds was nil";; fail err
  | inr ts =>
      r <~ attempt (ts_Token ts);
      match r with
      | inl err => fail err
      | inr token =>
          if negb (oauth2.Valid token) then
            fail (Errorf "token was invalid" [])
          else if negb (String.eqb (oauth2.Type_ token) "Bearer") then
            fail (Errorf (Sprintf ("expected token type " +:+ quoted "Bearer"
                                     +:+ " but got " +:+ quoted "%s")
                                  [oauth2.Type_ token]) [])
          else
            ret {| AccessToken := oauth2.AccessToken token; Endpoint := argGCRURL fl |}
      end
  end.

Definition getECRAuthorizationKey (c : controller) (fl : Flags) : M AuthToken :=
  let params := {| ecr.RegistryIds := [awsAccountID fl] |} in
  r <~ attempt (ecr_GetAuthorizationToken (ecrClient c) params);
  match r with
  | inl err => fmt_Println (Error err);; fail err
  | inr resp =>
      token <~ index (ecr.AuthorizationData_ resp) 0;
      data <~ deref token;
      accessToken <~ deref (ecr.AuthorizationToken data);
      endpoint <~ deref (ecr.ProxyEndpoint data);
      ret {| AccessToken := accessToken; Endpoint := endpoint |}
  end.

(** ** The secret object (lines 176-192) *)

Definition generateSecretObj (token endpoint : string) (isJSONCfg : bool)
  (secretName : string) : Secret :=
  if isJSONCfg then
    {| secret_Name := secretName;
       secret_Data :=
         {[ ".dockerconfigjson" :=
              list_byte_of_string (Sprintf dockerJSONTemplate [endpoint; token]) ]};
       secret_Type := "kubernetes.io/dockerconfigjson" |}
  else
    {| secret_Name := secretName;
       secret_Data :=
         {[ ".dockercfg" :=
              list_byte_of_string (Sprintf dockerCfgTemplate [endpoint; token]) ]};
       secret_Type := "kubernetes.io/dockercfg" |}.

(** ** The reconciliation run (lines 199-287) *)

Record SecretGenerator := {
  TokenGenFxn : M AuthToken;
  IsJSONCfg : bool;
  SecretName : string
}.

(** Lines 239-254: get the secret; create it when the get gave an error,
    update it otherwise. *)
Definition reconcileSecret (kube : kubeInterface) (namespace : string)
  (secretName : string) (newSecret : Secret) : M unit :=
  r <~ attempt (Secrets_Get kube namespace secretName);
  match r with
  | inl _ => Secrets_Create kube namespace newSecret
  | inr _ => Secrets_Update kube namespace newSecret
  end.

(** Lines 264-271: the index of the first image pull secret with the given
    name, where the loop breaks. *)
Fixpoint findImagePullSecret (secretName : string) (l : list LocalObjectReference)
  (i : nat) : option nat :=
  match l with
  | [] => None
  | imagePullSecret :: l' =>
      if String.eqb (ref_Name imagePullSecret) secretName then Some i
      else findImagePullSecret secretName l' (S i)
  end.

(** Lines 264-276: overwrite the entry found, or append one. *)
Definition setImagePullSecret (secretName : string) (l : list LocalObjectReference)
  : list LocalObjectReference :=
  match findImagePullSecret secretName l 0 with
  | Some i => <[i := {| ref_Name := secretName |}]> l
  | None => l ++ [{| ref_Name := secretName |}]
  end.

(** Whether the list has an entry with the given name, and how many. *)
Definition hasImagePullSecret (secretName : string) (l : list LocalObjectReference) : bool :=
  existsb (λ r, String.eqb (ref_Name r) secretName) l.

Fixpoint countImagePullSecrets (secretName : string) (l : list LocalObjectReference) : nat :=
  match l with
  | [] => 0
  | r :: l' =>
      (if String.eqb (ref_Name r) secretName then 1 else 0)
      + countImagePullSecrets secretName l'
  end.

(** Lines 256-281: get the default service account, set the image pull
    secret in it and write it back. *)
Definition reconcileServiceAccount (kube : kubeInterface) (namespace : string)
  (secretName : string) : M unit :=
  serviceAccount <~ ServiceAccounts_Get kube namespace "default";
  let serviceAccount' :=
    {| sa_Name := sa_Name serviceAccount;
       sa_ImagePullSecrets :=
         setImagePullSecret secretName (sa_ImagePullSecrets serviceAccount) |} in
  ServiceAccounts_Update kube namespace serviceAccount'.

(** Lines 239-281: what is done for one namespace that is not skipped. *)
Definition reconcileNamespace (kube : kubeInterface) (namespace : string)
  (secretName : string) (newSecret : Secret) : M unit :=
  reconcileSecret kube namespace secretName newSecret;;
  reconcileServiceAccount kube namespace secretName.

(** Lines 233-282: the body of the loop over the namespaces. *)
Definition processNamespace (kube : kubeInterface) (secretName : string)
  (newSecret : Secret) (namespace : Namespace) : M unit :=
  if String.eqb (GetName namespace) "kube-system" then ret tt
  else reconcileNamespace kube (GetName namespace) secretName newSecret.

(** Lines 221-283: the body of the loop over the generators. *)
Definition processGenerator (c : controller) (secretGenerator : SecretGenerator) : M unit :=
  newToken <~ TokenGenFxn secretGenerator;
  let newSecret :=
    generateSecretObj (AccessToken newToken) (Endpoint newToken)
      (IsJSONCfg secretGenerator) (SecretName secretGenerator) in
  namespaces <~ Namespaces_List (kubeClient c);
  forEach namespaces
    (processNamespace (kubeClient c) (SecretName secretGenerator) newSecret);;
  log_Print ("Finished processing secret for: " +:+ SecretName secretGenerator).

Definition secretGenerators (c : controller) (fl : Flags) : list SecretGenerator :=
  [ {| TokenGenFxn := getGCRAuthorizationKey c fl;
       IsJSONCfg := false;
       SecretName := argGCRSecretName fl |};
    {| TokenGenFxn := getECRAuthorizationKey c fl;
       IsJSONCfg := true;
       SecretName := argAWSSecretName fl |} ].

(** The two generators of [secretGenerators], by name. *)
Definition gcrGenerator (c : controller) (fl : Flags) : SecretGenerator :=
  {| TokenGenFxn := getGCRAuthorizationKey c fl;
     IsJSONCfg := false;
     SecretName := argGCRSecretName fl |}.

Definition ecrGenerator (c : controller) (fl : Flags) : SecretGenerator :=
  {| TokenGenFxn := getECRAuthorizationKey c fl;
     IsJSONCfg := true;
     SecretName := argAWSSecretName fl |}.


Definition process (c : controller) (fl : Flags) : M unit :=
  log_Print "Processing Credentials...";;
  forEach (secretGenerators c fl) (processGenerator c).

(** ** The main loop (lines 302-331) *)

(** The process after a number of ticks: still waiting for the next one,
    exited through [log.Fatalf], or brought down by a panic. *)
Inductive ProcessState : Type :=
| Waiting
| Exited (code : Z)
| Crashed (p : panic).

(** [log.Fatalf]: the message is logged and the process exits with 1. *)
Definition log_Fatalf (format : string) (args : list string) (w : World)
  : ProcessState * World :=
  (Exited 1, addLog (Sprintf format args) w).

(** Lines 322-330: the loop, for the given number of ticks of the timer. *)
Fixpoint serveTicks (c : controller) (fl : Flags) (ticks : nat) (w : World)
  : ProcessState * World :=
  match ticks with
  | O => (Waiting, w)
  | S ticks' =>
      match process c fl (addLog "Refreshing credentials..." w) with
      | (Ok _, w') => serveTicks c fl ticks' w'
      | (Err err, w') => log_Fatalf "Failed to load ecr credentials: %v" [Error err] w'
      | (Panicked p, w') => (Crashed p, w')
      end
  end.

(** [main], from the point where the flags are read and the clients are
    built (they are the arguments): the start-up messages, the first run,
    whose error is dropped, and the loop. *)
Definition startup (fl : Flags) : M unit :=
  log_Print "Starting up...";;
  (if String.eqb (awsAccountID fl) "" then
     log_Print "Missing awsaccount env variable, assuming GCR usage"
   else ret tt);;
  log_Print ("Using AWS Account: " +:+ awsAccountID fl);;
  log_Print (Sprintf "Using AWS Region: %s" [argAWSRegion fl]);;
  log_Print ("Refresh Interval (minutes): "
               +:+ NilZero.string_of_int (Z.to_int (argRefreshMinutes fl))).

Definition main (c : controller) (fl : Flags) (ticks : nat) (w : World)
  : ProcessState * World :=
  match (startup fl;; attempt (process c fl)) w with
  | (Panicked p, w') => (Crashed p, w')
  | (_, w') => serveTicks c fl ticks w'
  end.

(** ** Notions used to state the properties *)

(** A relation between the world before and after that every step of a
    computation keeps, whatever its outcome. *)
Definition keeps (R : World → World → Prop) {A} (m : M A) : Prop :=
  ∀ w, R w (m w).2.

(** From [w] to [w'] the requests made all satisfy [P]. *)
Definition onlyCalls (P : ApiCall → Prop) (w w' : World) : Prop :=
  ∃ calls, apiCalls w' = apiCalls w ++ calls ∧ Forall P calls.

(** From [w] to [w'] no request was made and the cluster is the same. *)
Definition quiet (w w' : World) : Prop :=
  cluster w' = cluster w ∧ apiCalls w' = apiCalls w.

(** A request that is not scoped to kube-system. *)
Definition outsideKubeSystem (call : ApiCall) : Prop :=
  callNamespace call ≠ Some "kube-system".

(** From [w] to [w'] kube-system was left alone: no request was scoped to
    it, and its secrets and service accounts are the same. *)
Definition sparesKubeSystem (w w' : World) : Prop :=
  onlyCalls outsideKubeSystem w w'
  ∧ (∀ name,
       secrets (cluster w') !! ("kube-system", name)
       = secrets (cluster w) !! ("kube-system", name))
  ∧ (∀ name,
       serviceAccounts (cluster w') !! ("kube-system", name)
       = serviceAccounts (cluster w) !! ("kube-system", name)).

(** Whether the loop over [items] reconciles a namespace of the given
    name: it is in the list and is not kube-system. *)
Definition visits (items : list Namespace) (name : string) : bool :=
  existsb (λ namespace, String.eqb (GetName namespace) name) items
  && negb (String.eqb name "kube-system").

(** From [cl] to [cl'] a loop over all the namespaces went through with
    success for the given secret: in the namespaces visited the secret is
    the new one and the list of the default account, which was there,
    went through [setImagePullSecret]; the rest is as it was. *)
Definition passed (secretName : string) (newSecret : Secret) (cl cl' : Cluster) : Prop :=
  namespaces cl' = namespaces cl
  ∧ (∀ ns n,
       secrets cl' !! (ns, n)
       = if visits (namespaces cl) ns && String.eqb n (secret_Name newSecret)
         then Some newSecret
         else secrets cl !! (ns, n))
  ∧ (∀ ns n,
       serviceAccounts cl' !! (ns, n)
       = if visits (namespaces cl) ns && String.eqb n "default"
         then setImagePullSecret secretName <$> serviceAccounts cl !! (ns, n)
         else serviceAccounts cl !! (ns, n))
  ∧ (∀ ns, visits (namespaces cl) ns = true →
           is_Some (serviceAccounts cl !! (ns, "default"))).

Definition sameEcrCalls (w w' : World) : Prop := ecrCalls w' = ecrCalls w.

(** ** The parameters from the environment (lines 289-300) *)

(** [getenv] is [os.Getenv]: the value of a variable, empty when it is not
    set.  The flags come in as the command line left them and go out as
    the rest of the program reads them. *)
Definition validateParams (getenv : string → string) (fl : Flags) : M Flags :=
  let account := getenv "awsaccount" in
  (if Nat.eqb (String.length account) 0 then
     log_Print "Missing awsaccount env variable, assuming GCR usage"
   else ret tt);;
  let awsRegionEnv := getenv "awsregion" in
  ret {| argAWSSecretName := argAWSSecretName fl;
         argGCRSecretName := argGCRSecretName fl;
         argGCRURL := argGCRURL fl;
         argAWSRegion :=
           if Nat.ltb 0 (String.length awsRegionEnv) then awsRegionEnv
           else argAWSRegion fl;
         argRefreshMinutes := argRefreshMinutes fl;
         awsAccountID := account |}.

(** Lines 303-310 of [main]: the messages at start-up around the call of
    [validateParams], for the flags that the command line gave. *)
Definition mainPrologue (getenv : string → string) (fl : Flags) : M Flags :=
  log_Print "Starting up...";;
  fl' <~ validateParams getenv fl;
  log_Print ("Using AWS Account: " +:+ awsAccountID fl');;
  log_Print (Sprintf "Using AWS Region: %s" [argAWSRegion fl']);;
  log_Print ("Refresh Interval (minutes): "
               +:+ NilZero.string_of_int (Z.to_int (argRefreshMinutes fl')));;
  ret fl'.

(** ** Further notions used to state properties *)

(** A computation that never ends in a panic. *)
Definition neverPanics {A} (m : M A) : Prop :=
  ∀ w p, (m w).1 ≠ Panicked p.

(** Strings without a double quote, and without a percent sign. *)
Fixpoint quoteFree (s : string) : bool :=
  match s with
  | EmptyString => true
  | String ch s' => negb (Ascii.eqb ch "034"%char) && quoteFree s'
  end.

Fixpoint percentFree (s : string) : bool :=
  match s with
  | EmptyString => true
  | String ch s' => negb (Ascii.eqb ch "%"%char) && percentFree s'
  end.

(** From [w] to [w'] nothing was logged or printed. *)
Definition sameOutput (w w' : World) : Prop :=
  logOutput w' = logOutput w ∧ stdOutput w' = stdOutput w.

Definition sameGcrCalls (w w' : World) : Prop := gcrCalls w' = gcrCalls w.

(** The namespaces of a list that the loop reconciles: all but kube-system. *)
Definition reconciledNamespaces (items : list Namespace) : list Namespace :=
  List.filter (λ namespace, negb (String.eqb (GetName namespace) "kube-system")) items.

(** What the two formats put between the endpoint and the token, the
    quotes that close the one and open the other included; and what they
    put before the endpoint and after the token. *)
Definition dockerCfgSeparator : string :=
  dquote +:+ ":{" +:+ quoted "username" +:+ ":" +:+ quoted "oauth2accesstoken"
         +:+ "," +:+ quoted "password" +:+ ":" +:+ dquote.

Definition dockerJSONSeparator : string :=
  dquote +:+ ":{" +:+ quoted "auth" +:+ ":" +:+ dquote.

Definition separator (isJSONCfg : bool) : string :=
  if isJSONCfg then dockerJSONSeparator else dockerCfgSeparator.

Definition opening (isJSONCfg : bool) : string :=
  if isJSONCfg then "{" +:+ quoted "auths" +:+ ":{" +:+ dquote else "{" +:+ dquote.

Definition closing (isJSONCfg : bool) : string :=
  if isJSONCfg then dquote +:+ "," +:+ quoted "email" +:+ ":" +:+ quoted "none" +:+ "}}}"
  else dquote +:+ "," +:+ quoted "email" +:+ ":" +:+ quoted "none" +:+ "}}".

(** The payload of a secret, as text. *)
Definition payload (token endpoint : string) (isJSONCfg : bool) : string :=
  Sprintf (if isJSONCfg then dockerJSONTemplate else dockerCfgTemplate) [endpoint; token].

(** From [w] to [w'] nothing was taken from the cluster: the namespaces
    are the same, the service accounts are the same ones (none was made,
    none removed), and every secret that was there is still there. *)
Definition nothingRemoved (w w' : World) : Prop :=
  namespaces (cluster w') = namespaces (cluster w)
  ∧ (∀ key, is_Some (serviceAccounts (cluster w') !! key)
            ↔ is_Some (serviceAccounts (cluster w) !! key))
  ∧ (∀ key, is_Some (secrets (cluster w) !! key) → is_Some (secrets (cluster w') !! key)).

(** ** Sample collaborators and worlds, for the examples below *)

Module Sample.

Definition noFaults : kubeInterface := {| apiFault := λ _ _, None |}.

(** ECR answers with the given entries. *)
Definition ecrEntries (entries : list (option ecr.AuthorizationData)) : ecrInterface :=
  {| GetAuthorizationToken := λ _ _, inr {| ecr.AuthorizationData_ := entries |} |}.

Definition ecrEntry (token endpoint : string) : option ecr.AuthorizationData :=
  Some {| ecr.AuthorizationToken := Some token; ecr.ProxyEndpoint := Some endpoint |}.

Definition ecrGood : ecrInterface :=
  ecrEntries [ecrEntry "ecr-token" "https://ecr.example"].

Definition ecrDown : ecrInterface :=
  {| GetAuthorizationToken := λ _ _, inl (RemoteError "ecr unreachable") |}.

Definition gcrToken (accessToken : string) : gcrInterface :=
  {| DefaultTokenSource := λ _ _,
       inr {| oauth2.Token_ :=
                inr {| oauth2.AccessToken := accessToken;
                       oauth2.Valid := true;
                       oauth2.Type_ := "Bearer" |} |} |}.

Definition gcrGood : gcrInterface := gcrToken "gcr-token".

Definition gcrDown : gcrInterface :=
  {| DefaultTokenSource := λ _ _, inl (RemoteError "no default credentials") |}.

Definition good : controller :=
  {| kubeClient := noFaults; ecrClient := ecrGood; gcrClient := gcrGood |}.

(** GCR has no credentials. *)
Definition gcrFailing : controller :=
  {| kubeClient := noFaults; ecrClient := ecrGood; gcrClient := gcrDown |}.

(** ECR fails, or answers with no entry. *)
Definition ecrFailing : controller :=
  {| kubeClient := noFaults; ecrClient := ecrDown; gcrClient := gcrGood |}.

Definition ecrEmpty : controller :=
  {| kubeClient := noFaults; ecrClient := ecrEntries []; gcrClient := gcrGood |}.

(** Every get of a secret times out; nothing else fails. *)
Definition getTimesOut : kubeInterface :=
  {| apiFault := λ _ call,
       match call with
       | SecretsGet _ _ => Some (StatusFailure "request timed out")
       | _ => None
       end |}.

(** The list of namespaces cannot be had; nothing else fails. *)
Definition listRefused : kubeInterface :=
  {| apiFault := λ _ call,
       match call with
       | NamespacesList => Some (StatusFailure "connection refused")
       | _ => None
       end |}.

(** Only the n-th request fails, with a server error. *)
Definition failsAt (n : nat) : kubeInterface :=
  {| apiFault := λ i _,
       if Nat.eqb i n then Some (StatusFailure "internal error") else None |}.

(** ECR fails on its first and on its third call and answers the second. *)
Definition ecrFlaky : controller :=
  {| kubeClient := noFaults;
     ecrClient :=
       {| GetAuthorizationToken := λ n _,
            if Nat.eqb n 1 then
              inr {| ecr.AuthorizationData_ := [ecrEntry "ecr-token" "https://ecr.example"] |}
            else inl (RemoteError "ecr unreachable") |};
     gcrClient := gcrGood |}.

Definition withKube (kube : kubeInterface) : controller :=
  {| kubeClient := kube; ecrClient := ecrGood; gcrClient := gcrGood |}.

Definition world (cl : Cluster) : World :=
  {| cluster := cl; apiCalls := []; ecrCalls := 0; gcrCalls := 0;
     logOutput := []; stdOutput := [] |}.

(** Namespaces kube-system and team-a; in team-a the default account
    pulls with [other-reg]. *)
Definition teamA : Cluster :=
  {| namespaces := [ {| ns_Name := "kube-system" |}; {| ns_Name := "team-a" |} ];
     secrets := ∅;
     serviceAccounts :=
       {[ ("kube-system", "default") := [];
          ("team-a", "default") := [ {| ref_Name := "other-reg" |} ] ]} |}.

(** One namespace whose default account lists [gcr-secret] twice. *)
Definition twice : Cluster :=
  {| namespaces := [ {| ns_Name := "team-b" |} ];
     secrets := ∅;
     serviceAccounts :=
       {[ ("team-b", "default") :=
            [ {| ref_Name := "gcr-secret" |}; {| ref_Name := "gcr-secret" |} ] ]} |}.

(** GCR gives the token of the given type and validity. *)
Definition gcrWith (accessToken tokenType : string) (valid : bool) : controller :=
  {| kubeClient := noFaults;
     ecrClient := ecrGood;
     gcrClient :=
       {| DefaultTokenSource := λ _ _,
            inr {| oauth2.Token_ :=
                     inr {| oauth2.AccessToken := accessToken;
                            oauth2.Valid := valid;
                            oauth2.Type_ := tokenType |} |} |} |}.

(** The cluster [teamA] after a first run: the secrets are there. *)
Definition teamAStale : Cluster :=
  {| namespaces := namespaces teamA;
     secrets :=
       {[ ("team-a", "gcr-secret") :=
            {| secret_Name := "gcr-secret"; secret_Data := ∅;
               secret_Type := "kubernetes.io/dockercfg" |} ]};
     serviceAccounts :=
       {[ ("kube-system", "default") := [];
          ("team-a", "default") := [ {| ref_Name := "gcr-secret" |} ] ]} |}.

(** Both secrets under one name. *)
Definition oneName : Flags :=
  {| argAWSSecretName := "regcred";
     argGCRSecretName := "regcred";
     argGCRURL := "https://gcr.io";
     argAWSRegion := "us-east-1";
     argRefreshMinutes := 60;
     awsAccountID := "123456789012" |}.

End Sample.

(** * Properties *)

(** ** Reasoning about the monad *)

Lemma bind_Ok {A B} (m : M A) (k : A → M B) w b w' :
  bind m k w = (Ok b, w') → ∃ a w1, m w = (Ok a, w1) ∧ k a w1 = (Ok b, w').
Proof.
  unfold bind. destruct (m w) as [[a|e|p] w1]; intros H; try discriminate H.
  exists a, w1. split; [reflexivity | exact H].
Qed.

Lemma bind_of_Ok {A B} (m : M A) (k : A → M B) w a w1 :
  m w = (Ok a, w1) → bind m k w = k a w1.
Proof. unfold bind. intros ->. reflexivity. Qed.

Lemma bind_of_Err {A B} (m : M A) (k : A → M B) w e w1 :
  m w = (Err e, w1) → bind m k w = (Err e, w1).
Proof. unfold bind. intros ->. reflexivity. Qed.

Lemma forEach_app {A} (l1 l2 : list A) (body : A → M unit) w w1 :
  forEach l1 body w = (Ok tt, w1) →
  forEach (l1 ++ l2) body w = forEach l2 body w1.
Proof.
  revert w. induction l1 as [|x l1 IH]; intros w H; simpl in *.
  - unfold ret in H. congruence.
  - apply bind_Ok in H as (u & w2 & Hx & Hrest).
    rewrite (bind_of_Ok _ _ _ _ _ Hx). apply IH. exact Hrest.
Qed.

(** How [keeps] goes through the constructs of the monad. *)
Section Keeps.

Variable R : World → World → Prop.
Hypothesis R_refl : ∀ w, R w w.
Hypothesis R_trans : ∀ w1 w2 w3, R w1 w2 → R w2 w3 → R w1 w3.

Lemma keeps_ret {A} (a : A) : keeps R (ret a).
Proof. intros w. apply R_refl. Qed.

Lemma keeps_fail {A} (e : error) : keeps R (@fail A e).
Proof. intros w. apply R_refl. Qed.

Lemma keeps_raise {A} (p : panic) : keeps R (@raise A p).
Proof. intros w. apply R_refl. Qed.

Lemma keeps_bind {A B} (m : M A) (k : A → M B) :
  keeps R m → (∀ a, keeps R (k a)) → keeps R (bind m k).
Proof.
  intros Hm Hk w. unfold bind. specialize (Hm w).
  destruct (m w) as [[a|e|p] w1]; simpl in *; try exact Hm.
  eapply R_trans; [exact Hm | apply Hk].
Qed.

Lemma keeps_attempt {A} (m : M A) : keeps R m → keeps R (attempt m).
Proof.
  intros Hm w. unfold attempt. specialize (Hm w).
  destruct (m w) as [[a|e|p] w1]; exact Hm.
Qed.

Lemma keeps_forEach {A} (l : list A) (body : A → M unit) :
  (∀ x, x ∈ l → keeps R (body x)) → keeps R (forEach l body).
Proof.
  induction l as [|x l IH]; intros Hbody; simpl.
  - apply keeps_ret.
  - apply keeps_bind.
    + apply Hbody. left.
    + intros _. apply IH. intros y Hy. apply Hbody. right. exact Hy.
Qed.

End Keeps.

(** ** The secret object *)

Lemma append_assoc (a b c : string) : (a +:+ b) +:+ c = a +:+ (b +:+ c).
Proof.
  induction a as [|ch a IH]; [reflexivity |].
  change (String ch ((a +:+ b) +:+ c) = String ch (a +:+ (b +:+ c))).
  rewrite IH. reflexivity.
Qed.

Lemma Sprintf_dockerCfgTemplate (endpoint token : string) :
  Sprintf dockerCfgTemplate [endpoint; token]
  = "{" +:+ quoted endpoint +:+ ":{" +:+ quoted "username" +:+ ":"
        +:+ quoted "oauth2accesstoken" +:+ "," +:+ quoted "password" +:+ ":"
        +:+ quoted token +:+ "," +:+ quoted "email" +:+ ":" +:+ quoted "none" +:+ "}}".
Proof.
  unfold quoted. rewrite !append_assoc. reflexivity.
Qed.

Lemma Sprintf_dockerJSONTemplate (endpoint token : string) :
  Sprintf dockerJSONTemplate [endpoint; token]
  = "{" +:+ quoted "auths" +:+ ":{" +:+ quoted endpoint +:+ ":{" +:+ quoted "auth" +:+ ":"
        +:+ quoted token +:+ "," +:+ quoted "email" +:+ ":" +:+ quoted "none" +:+ "}}}".
Proof.
  unfold quoted. rewrite !append_assoc. reflexivity.
Qed.

(** C5.  For every token and endpoint, [generateSecretObj] with the legacy
    format gives a secret of type kubernetes.io/dockercfg whose data has the
    single key .dockercfg, holding exactly the bytes of
    {"<endpoint>":{"username":"oauth2accesstoken","password":"<token>","email":"none"}},
    and with the JSON format a secret of type kubernetes.io/dockerconfigjson
    whose data has the single key .dockerconfigjson, holding exactly the
    bytes of {"auths":{"<endpoint>":{"auth":"<token>","email":"none"}}}.
    The function is total: it is defined on every input. *)
Theorem generateSecretObj_formats (token endpoint secretName : string) :
  generateSecretObj token endpoint false secretName
  = {| secret_Name := secretName;
       secret_Data :=
         {[ ".dockercfg" :=
              list_byte_of_string
                ("{" +:+ quoted endpoint +:+ ":{" +:+ quoted "username" +:+ ":"
                     +:+ quoted "oauth2accesstoken" +:+ "," +:+ quoted "password" +:+ ":"
                     +:+ quoted token +:+ "," +:+ quoted "email" +:+ ":"
                     +:+ quoted "none" +:+ "}}") ]};
       secret_Type := "kubernetes.io/dockercfg" |}
  ∧ generateSecretObj token endpoint true secretName
  = {| secret_Name := secretName;
       secret_Data :=
         {[ ".dockerconfigjson" :=
              list_byte_of_string
                ("{" +:+ quoted "auths" +:+ ":{" +:+ quoted endpoint +:+ ":{"
                     +:+ quoted "auth" +:+ ":" +:+ quoted token +:+ ","
                     +:+ quoted "email" +:+ ":" +:+ quoted "none" +:+ "}}}") ]};
       secret_Type := "kubernetes.io/dockerconfigjson" |}
  ∧ size (secret_Data (generateSecretObj token endpoint false secretName)) = 1
  ∧ size (secret_Data (generateSecretObj token endpoint true secretName)) = 1.
Proof.
  unfold generateSecretObj.
  rewrite Sprintf_dockerCfgTemplate, Sprintf_dockerJSONTemplate. simpl.
  repeat split; apply map_size_singleton.
Qed.

(** ** The ECR token provider *)

(** C9.  When GetAuthorizationToken answers with one or more entries, the
    provider uses the first one only: the token it returns carries the
    authorization token and the proxy endpoint that the first entry holds,
    whatever the further entries are (they may even be nil). *)
Theorem getECRAuthorizationKey_first_entry (c : controller) (fl : Flags) (w : World)
    (accessToken endpoint : string) (rest : list (option ecr.AuthorizationData)) :
  GetAuthorizationToken (ecrClient c) (ecrCalls w) {| ecr.RegistryIds := [awsAccountID fl] |}
  = inr {| ecr.AuthorizationData_ :=
             Some {| ecr.AuthorizationToken := Some accessToken;
                     ecr.ProxyEndpoint := Some endpoint |} :: rest |} →
  getECRAuthorizationKey c fl w
  = (Ok {| AccessToken := accessToken; Endpoint := endpoint |}, countEcr w).
Proof.
  intros Hreply. unfold getECRAuthorizationKey, bind, attempt, ecr_GetAuthorizationToken.
  rewrite Hreply. reflexivity.
Qed.

Lemma getECRAuthorizationKey_first_entry_witness :
  getECRAuthorizationKey
    {| kubeClient := Sample.noFaults;
       ecrClient := Sample.ecrEntries [Sample.ecrEntry "first" "https://one"; None;
                                       Sample.ecrEntry "second" "https://two"];
       gcrClient := Sample.gcrGood |}
    defaultFlags (Sample.world Sample.teamA)
  = (Ok {| AccessToken := "first"; Endpoint := "https://one" |},
     countEcr (Sample.world Sample.teamA)).
Proof.
  apply (getECRAuthorizationKey_first_entry _ _ _ "first" "https://one"
           [None; Sample.ecrEntry "second" "https://two"]).
  reflexivity.
Defined.

Lemma secretGenerators_eq (c : controller) (fl : Flags) :
  secretGenerators c fl = [gcrGenerator c fl; ecrGenerator c fl].
Proof. reflexivity. Qed.

Lemma getECRAuthorizationKey_error (c : controller) (fl : Flags) (w : World) (e : error) :
  GetAuthorizationToken (ecrClient c) (ecrCalls w) {| ecr.RegistryIds := [awsAccountID fl] |}
  = inl e →
  getECRAuthorizationKey c fl w = (Err e, addStdout (Error e) (countEcr w)).
Proof.
  intros Hreply. unfold getECRAuthorizationKey, bind, attempt, ecr_GetAuthorizationToken.
  rewrite Hreply. reflexivity.
Qed.

(** C2, as the code has it.  If the remote call of the ECR provider fails
    with an error, the provider returns that error (no token, no panic);
    the run, which comes to the ECR provider after the GCR generator is
    done, returns the same error, and from the failed call on it makes no
    request to the cluster: the cluster and the list of requests stay as
    the GCR generator left them. *)
Theorem getECRAuthorizationKey_remote_error (c : controller) (fl : Flags)
    (w0 w : World) (e : error) :
  processGenerator c (gcrGenerator c fl) (addLog "Processing Credentials..." w0)
  = (Ok tt, w) →
  GetAuthorizationToken (ecrClient c) (ecrCalls w) {| ecr.RegistryIds := [awsAccountID fl] |}
  = inl e →
  ∃ w', getECRAuthorizationKey c fl w = (Err e, w')
        ∧ process c fl w0 = (Err e, w')
        ∧ cluster w' = cluster w
        ∧ apiCalls w' = apiCalls w.
Proof.
  intros Hgcr Hreply. exists (addStdout (Error e) (countEcr w)).
  pose proof (getECRAuthorizationKey_error c fl w e Hreply) as Hfetch.
  repeat split; [exact Hfetch |].
  unfold process, log_Print. rewrite secretGenerators_eq. unfold bind at 1. simpl.
  rewrite (bind_of_Ok _ _ _ _ _ Hgcr).
  apply bind_of_Err. unfold processGenerator. apply bind_of_Err. exact Hfetch.
Qed.

Lemma getECRAuthorizationKey_remote_error_witness :
  ∃ w', process Sample.ecrFailing defaultFlags (Sample.world Sample.teamA)
        = (Err (RemoteError "ecr unreachable"), w').
Proof.
  destruct (getECRAuthorizationKey_remote_error Sample.ecrFailing defaultFlags
              (Sample.world Sample.teamA)
              (processGenerator Sample.ecrFailing
                 (gcrGenerator Sample.ecrFailing defaultFlags)
                 (addLog "Processing Credentials..." (Sample.world Sample.teamA))).2
              (RemoteError "ecr unreachable"))
    as (w' & _ & Hrun & _).
  - vm_compute. reflexivity.
  - reflexivity.
  - exists w'. exact Hrun.
Defined.

(** C2 does not hold as it is stated.  With no entry in the answer the
    provider panics on the index 0 instead of returning an error; and when
    the remote call fails, the run has by then written the GCR secret in
    the namespaces. *)
Lemma getECRAuthorizationKey_claim_fails :
  (getECRAuthorizationKey Sample.ecrEmpty defaultFlags (Sample.world Sample.teamA)).1
  = Panicked (IndexOutOfRange 0 0)
  ∧ (process Sample.ecrFailing defaultFlags (Sample.world Sample.teamA)).1
    = Err (RemoteError "ecr unreachable")
  ∧ secrets (cluster (process Sample.ecrFailing defaultFlags
                        (Sample.world Sample.teamA)).2) !! ("team-a", "gcr-secret")
    = Some (generateSecretObj "gcr-token" "https://gcr.io" false "gcr-secret")
  ∧ secrets (cluster (Sample.world Sample.teamA)) !! ("team-a", "gcr-secret") = None.
Proof. vm_compute. repeat split; reflexivity. Qed.

(** ** The get of the secret *)

(** C4 fails on the code: whatever error the get of the secret gives, the
    create is attempted.  Here every get times out; the secret is created
    all the same and the run goes on to the service account and ends
    without error. *)
Theorem reconcileSecret_creates_on_any_error :
  let newSecret := generateSecretObj "gcr-token" "https://gcr.io" false "gcr-secret" in
  let run := processGenerator (Sample.withKube Sample.getTimesOut)
               (gcrGenerator (Sample.withKube Sample.getTimesOut) defaultFlags)
               (Sample.world Sample.teamA) in
  run.1 = Ok tt
  ∧ apiCalls run.2
    = [ NamespacesList;
        SecretsGet "team-a" "gcr-secret";
        SecretsCreate "team-a" newSecret;
        ServiceAccountsGet "team-a" "default";
        ServiceAccountsUpdate "team-a"
          {| sa_Name := "default";
             sa_ImagePullSecrets :=
               [ {| ref_Name := "other-reg" |}; {| ref_Name := "gcr-secret" |} ] |} ]
  ∧ apiFault Sample.getTimesOut 1 (SecretsGet "team-a" "gcr-secret")
    = Some (StatusFailure "request timed out")
  ∧ IsNotFound (StatusFailure "request timed out") = false.
Proof. vm_compute. repeat split; reflexivity. Qed.

(** Whatever the error of the get, the create follows it. *)
Lemma reconcileSecret_get_error (kube : kubeInterface) (namespace secretName : string)
    (newSecret : Secret) (w : World) (e : error) :
  apiFault kube (length (apiCalls w)) (SecretsGet namespace secretName) = Some e →
  reconcileSecret kube namespace secretName newSecret w
  = Secrets_Create kube namespace newSecret (recordCall (SecretsGet namespace secretName) w).
Proof.
  intros Hfault.
  unfold reconcileSecret, bind, attempt, Secrets_Get, bind, request.
  rewrite Hfault. reflexivity.
Qed.

(** ** The main loop *)

Lemma append_empty_r (s : string) : s +:+ "" = s.
Proof.
  induction s as [|ch s IH]; [reflexivity |].
  change (String ch (s +:+ "") = String ch s). rewrite IH. reflexivity.
Qed.

Lemma serveTicks_add (c : controller) (fl : Flags) (k n : nat) (w wk : World) :
  serveTicks c fl k w = (Waiting, wk) →
  serveTicks c fl (k + n) w = serveTicks c fl n wk.
Proof.
  revert w. induction k as [|k IH]; intros w H; simpl in *.
  - injection H as ->. reflexivity.
  - destruct (process c fl (addLog "Refreshing credentials..." w)) as [[u|e|p] w1].
    + apply IH. exact H.
    + discriminate H.
    + discriminate H.
Qed.

Lemma serveTicks_failure (c : controller) (fl : Flags) (n : nat) (w w' : World) (e : error) :
  process c fl (addLog "Refreshing credentials..." w) = (Err e, w') →
  serveTicks c fl (S n) w
  = (Exited 1, addLog ("Failed to load ecr credentials: " +:+ Error e) w').
Proof.
  intros H. simpl. rewrite H. unfold log_Fatalf. do 2 f_equal.
  change (Sprintf "Failed to load ecr credentials: %v" [Error e])
    with ("Failed to load ecr credentials: " +:+ (Error e +:+ "")).
  rewrite append_empty_r. reflexivity.
Qed.

Lemma startup_Ok (fl : Flags) (w : World) : (startup fl w).1 = Ok tt.
Proof.
  unfold startup, bind, log_Print. destruct (String.eqb (awsAccountID fl) ""); reflexivity.
Qed.

Lemma main_unfold (c : controller) (fl : Flags) (ticks : nat) (w : World) :
  main c fl ticks w
  = match process c fl (startup fl w).2 with
    | (Panicked p, w') => (Crashed p, w')
    | (_, w') => serveTicks c fl ticks w'
    end.
Proof.
  unfold main. unfold bind at 1. pose proof (startup_Ok fl w) as Hs.
  destruct (startup fl w) as [r w0]. simpl in *. subst r.
  unfold attempt. destruct (process c fl w0) as [[u|e|p] w1]; reflexivity.
Qed.

(** C8, as the code has it.  If the run at start-up fails, [main] drops the
    error: it logs nothing for it and goes on into the loop, from the world
    the run left, so with no tick yet the process is waiting.  If a
    scheduled run fails, the error is logged with [log.Fatalf] and the
    process exits with status 1, whatever ticks would follow. *)
Theorem main_run_failures (c : controller) (fl : Flags) (w : World) :
  (∀ e w1, process c fl (startup fl w).2 = (Err e, w1) →
           main c fl 0 w = (Waiting, w1)
           ∧ ∀ ticks, main c fl ticks w = serveTicks c fl ticks w1)
  ∧ (∀ k n wk e w2,
       main c fl k w = (Waiting, wk) →
       process c fl (addLog "Refreshing credentials..." wk) = (Err e, w2) →
       main c fl (k + S n) w
       = (Exited 1, addLog ("Failed to load ecr credentials: " +:+ Error e) w2)).
Proof.
  split.
  - intros e w1 Hrun. split; [| intros ticks]; rewrite main_unfold, Hrun; reflexivity.
  - intros k n wk e w2 Hk Hrun. rewrite main_unfold in *.
    destruct (process c fl (startup fl w).2) as [[u|e0|p] w1]; try discriminate Hk.
    + rewrite (serveTicks_add _ _ _ _ _ _ Hk). apply serveTicks_failure. exact Hrun.
    + rewrite (serveTicks_add _ _ _ _ _ _ Hk). apply serveTicks_failure. exact Hrun.
Qed.

Lemma main_run_failures_witness :
  (main Sample.ecrFlaky defaultFlags 0 (Sample.world Sample.teamA)).1 = Waiting
  ∧ (main Sample.ecrFlaky defaultFlags 1 (Sample.world Sample.teamA)).1 = Waiting
  ∧ (main Sample.ecrFlaky defaultFlags 5 (Sample.world Sample.teamA)).1 = Exited 1.
Proof.
  destruct (main_run_failures Sample.ecrFlaky defaultFlags (Sample.world Sample.teamA))
    as [Hfirst Hlater].
  destruct (Hfirst (RemoteError "ecr unreachable")
              (process Sample.ecrFlaky defaultFlags
                 (startup defaultFlags (Sample.world Sample.teamA)).2).2)
    as [H0 _]; [vm_compute; reflexivity |].
  split; [rewrite H0; reflexivity |].
  split; [vm_compute; reflexivity |].
  unshelve epose proof
    (Hlater 1 3
       (main Sample.ecrFlaky defaultFlags 1 (Sample.world Sample.teamA)).2
       (RemoteError "ecr unreachable")
       (process Sample.ecrFlaky defaultFlags
          (addLog "Refreshing credentials..."
             (main Sample.ecrFlaky defaultFlags 1 (Sample.world Sample.teamA)).2)).2
       _ _) as H5; [vm_compute; reflexivity | vm_compute; reflexivity |].
  exact (f_equal fst H5).
Defined.

(** C8 does not hold as it is stated: the failure of the run at start-up is
    not logged.  Here the namespaces cannot be listed; the run at start-up
    returns that error, the process waits for the first tick, and neither
    the log nor the standard output mentions the error. *)
Lemma main_initial_failure_not_logged :
  let c := Sample.withKube Sample.listRefused in
  let w := Sample.world Sample.teamA in
  (process c defaultFlags (startup defaultFlags w).2).1
  = Err (StatusFailure "connection refused")
  ∧ (main c defaultFlags 0 w).1 = Waiting
  ∧ logOutput (main c defaultFlags 0 w).2
    = [ "Starting up...";
        "Missing awsaccount env variable, assuming GCR usage";
        "Using AWS Account: ";
        "Using AWS Region: us-east-1";
        "Refresh Interval (minutes): 60";
        "Processing Credentials..." ]
  ∧ stdOutput (main c defaultFlags 0 w).2 = []
  ∧ existsb (contains "connection refused") (logOutput (main c defaultFlags 0 w).2) = false.
Proof. vm_compute. repeat split; reflexivity. Qed.

(** ** The image pull secrets of a service account *)

Lemma findImagePullSecret_spec (secretName : string) (l : list LocalObjectReference) (i : nat) :
  match findImagePullSecret secretName l i with
  | Some j =>
      ∃ k, j = i + k ∧ l !! k = Some {| ref_Name := secretName |}
           ∧ hasImagePullSecret secretName l = true
  | None => hasImagePullSecret secretName l = false
  end.
Proof.
  revert i. induction l as [|[name] l IH]; intros i; simpl; [reflexivity |].
  destruct (String.eqb name secretName) eqn:Hname.
  - apply String.eqb_eq in Hname as ->. exists 0. split; [lia |]. split; reflexivity.
  - specialize (IH (S i)). destruct (findImagePullSecret secretName l (S i)) as [j|].
    + destruct IH as (k & -> & Hk & Hhas). exists (S k). split; [lia |]. split; assumption.
    + exact IH.
Qed.

(** The loop with its break and the append after it come to this: the
    list is left as it is when it has the name, and gets it at the end
    otherwise. *)
Lemma setImagePullSecret_eq (secretName : string) (l : list LocalObjectReference) :
  setImagePullSecret secretName l
  = if hasImagePullSecret secretName l then l
    else l ++ [{| ref_Name := secretName |}].
Proof.
  unfold setImagePullSecret.
  pose proof (findImagePullSecret_spec secretName l 0) as H.
  destruct (findImagePullSecret secretName l 0) as [j|].
  - destruct H as (k & -> & Hk & ->). simpl. apply list_insert_id. exact Hk.
  - rewrite H. reflexivity.
Qed.

Lemma hasImagePullSecret_app (secretName : string) (l1 l2 : list LocalObjectReference) :
  hasImagePullSecret secretName (l1 ++ l2)
  = hasImagePullSecret secretName l1 || hasImagePullSecret secretName l2.
Proof. unfold hasImagePullSecret. apply existsb_app. Qed.

Lemma hasImagePullSecret_set (secretName : string) (l : list LocalObjectReference) :
  hasImagePullSecret secretName (setImagePullSecret secretName l) = true.
Proof.
  rewrite setImagePullSecret_eq.
  destruct (hasImagePullSecret secretName l) eqn:H; [exact H |].
  rewrite hasImagePullSecret_app, H. simpl. rewrite String.eqb_refl. reflexivity.
Qed.

Lemma setImagePullSecret_idempotent (secretName : string) (l : list LocalObjectReference) :
  setImagePullSecret secretName (setImagePullSecret secretName l)
  = setImagePullSecret secretName l.
Proof.
  rewrite (setImagePullSecret_eq secretName (setImagePullSecret secretName l)).
  rewrite hasImagePullSecret_set. reflexivity.
Qed.

Lemma countImagePullSecrets_app (secretName : string) (l1 l2 : list LocalObjectReference) :
  countImagePullSecrets secretName (l1 ++ l2)
  = countImagePullSecrets secretName l1 + countImagePullSecrets secretName l2.
Proof. induction l1 as [|r l1 IH]; simpl; [reflexivity | rewrite IH; lia]. Qed.

Lemma countImagePullSecrets_has (secretName : string) (l : list LocalObjectReference) :
  hasImagePullSecret secretName l = negb (Nat.eqb (countImagePullSecrets secretName l) 0).
Proof.
  induction l as [|r l IH]; simpl; [reflexivity |].
  destruct (String.eqb (ref_Name r) secretName); simpl; [reflexivity | exact IH].
Qed.

(** The number of entries with the name after the step: what it was, and
    one when there was none. *)
Lemma countImagePullSecrets_set (secretName : string) (l : list LocalObjectReference) :
  countImagePullSecrets secretName (setImagePullSecret secretName l)
  = Nat.max 1 (countImagePullSecrets secretName l).
Proof.
  rewrite setImagePullSecret_eq, countImagePullSecrets_has.
  destruct (Nat.eqb_spec (countImagePullSecrets secretName l) 0) as [H0|Hpos]; simpl.
  - rewrite countImagePullSecrets_app, H0. simpl. rewrite String.eqb_refl. reflexivity.
  - lia.
Qed.

Lemma countImagePullSecrets_set_other (secretName other : string)
    (l : list LocalObjectReference) :
  other ≠ secretName →
  countImagePullSecrets other (setImagePullSecret secretName l)
  = countImagePullSecrets other l.
Proof.
  intros Hne. rewrite setImagePullSecret_eq.
  destruct (hasImagePullSecret secretName l); [reflexivity |].
  rewrite countImagePullSecrets_app. simpl.
  destruct (String.eqb_spec secretName other) as [->|_]; [contradiction | lia].
Qed.

Lemma setImagePullSecret_prefix (secretName : string) (l : list LocalObjectReference) :
  l `prefix_of` setImagePullSecret secretName l.
Proof.
  rewrite setImagePullSecret_eq. destruct (hasImagePullSecret secretName l).
  - reflexivity.
  - apply prefix_app_r. reflexivity.
Qed.

(** ** Requests to the cluster *)

Lemma serve_inr (call : ApiCall) (cl cl' : Cluster) (reply : Reply) :
  serve call cl = (inr reply, cl') →
  match call with
  | NamespacesList => cl' = cl ∧ reply = ReplyNamespaces (namespaces cl)
  | SecretsGet _ _ => cl' = cl
  | SecretsCreate ns s | SecretsUpdate ns s =>
      cl' = setSecrets (<[(ns, secret_Name s) := s]> (secrets cl)) cl
  | ServiceAccountsGet ns name =>
      cl' = cl
      ∧ ∃ refs, serviceAccounts cl !! (ns, name) = Some refs
                ∧ reply = ReplyServiceAccount {| sa_Name := name; sa_ImagePullSecrets := refs |}
  | ServiceAccountsUpdate ns sa =>
      cl' = setServiceAccounts
              (<[(ns, sa_Name sa) := sa_ImagePullSecrets sa]> (serviceAccounts cl)) cl
  end.
Proof.
  destruct call as [|ns name|ns s|ns s|ns name|ns sa]; simpl.
  - intros [= <- <-]. split; reflexivity.
  - destruct (secrets cl !! (ns, name)); intros [= <- <-]; reflexivity.
  - destruct (secrets cl !! (ns, secret_Name s)); intros [= <- <-]; reflexivity.
  - destruct (secrets cl !! (ns, secret_Name s)); intros [= <- <-]; reflexivity.
  - destruct (serviceAccounts cl !! (ns, name)) as [refs|]; intros [= <- <-].
    split; [reflexivity |]. exists refs. split; reflexivity.
  - destruct (serviceAccounts cl !! (ns, sa_Name sa)); intros [= <- <-]; reflexivity.
Qed.

(** What a request does to the world, by its outcome. *)
Lemma request_spec (kube : kubeInterface) (call : ApiCall) (w : World) :
  apiCalls (request kube call w).2 = apiCalls w ++ [call]
  ∧ ecrCalls (request kube call w).2 = ecrCalls w
  ∧ gcrCalls (request kube call w).2 = gcrCalls w
  ∧ logOutput (request kube call w).2 = logOutput w
  ∧ stdOutput (request kube call w).2 = stdOutput w
  ∧ match (request kube call w).1 with
    | Ok reply => serve call (cluster w) = (inr reply, cluster (request kube call w).2)
    | Err _ => cluster (request kube call w).2 = cluster w
    | Panicked _ => False
    end.
Proof.
  unfold request. destruct (apiFault kube (length (apiCalls w)) call) as [e|]; simpl.
  - repeat split.
  - destruct (serve call (cluster w)) as [[e|reply] cl]; simpl; repeat split.
Qed.

Lemma request_Ok (kube : kubeInterface) (call : ApiCall) (w w' : World) (reply : Reply) :
  request kube call w = (Ok reply, w') → serve call (cluster w) = (inr reply, cluster w').
Proof.
  intros H. pose proof (request_spec kube call w) as Hspec. rewrite H in Hspec. simpl in Hspec.
  apply Hspec.
Qed.

(** A unit-valued request, as the controller makes them. *)
Lemma request_unit_Ok (kube : kubeInterface) (call : ApiCall) (w w' : World) :
  (request kube call;; ret tt) w = (Ok tt, w') →
  ∃ reply, serve call (cluster w) = (inr reply, cluster w').
Proof.
  intros H. apply bind_Ok in H as (reply & w1 & Hreq & Hret).
  unfold ret in Hret. injection Hret as <-. exists reply.
  exact (request_Ok kube call w w1 reply Hreq).
Qed.

Lemma attempt_Ok {A} (m : M A) (w w' : World) (r : error + A) :
  attempt m w = (Ok r, w') →
  match r with
  | inl e => m w = (Err e, w')
  | inr a => m w = (Ok a, w')
  end.
Proof.
  unfold attempt. destruct (m w) as [[a|e|p] w1]; intros [= <- <-]; reflexivity.
Qed.

(** ** The steps for one namespace *)

(** The get of a secret never changes the cluster. *)
Lemma Secrets_Get_cluster (kube : kubeInterface) (namespace name : string) (w : World) :
  cluster (Secrets_Get kube namespace name w).2 = cluster w.
Proof.
  unfold Secrets_Get, bind.
  pose proof (request_spec kube (SecretsGet namespace name) w) as (_ & _ & _ & _ & _ & H).
  destruct (request kube (SecretsGet namespace name) w) as [[reply|e|p] w1]; cbn [fst snd] in *.
  - apply serve_inr in H. exact H.
  - exact H.
  - contradiction.
Qed.

(** When the step for the secret succeeds, the new secret is in the
    cluster under its name, and nothing else has changed. *)
Lemma reconcileSecret_Ok (kube : kubeInterface) (namespace secretName : string)
    (newSecret : Secret) (w w' : World) :
  reconcileSecret kube namespace secretName newSecret w = (Ok tt, w') →
  cluster w'
  = setSecrets (<[(namespace, secret_Name newSecret) := newSecret]> (secrets (cluster w)))
      (cluster w).
Proof.
  unfold reconcileSecret. intros H. apply bind_Ok in H as (r & w1 & Hget & Hput).
  assert (cluster w1 = cluster w) as Hsame.
  { pose proof (Secrets_Get_cluster kube namespace secretName w) as Hc.
    apply attempt_Ok in Hget. destruct r; rewrite Hget in Hc; exact Hc. }
  destruct r as [e|u].
  - apply request_unit_Ok in Hput as (reply & Hserve). apply serve_inr in Hserve.
    rewrite Hserve, Hsame. reflexivity.
  - apply request_unit_Ok in Hput as (reply & Hserve). apply serve_inr in Hserve.
    rewrite Hserve, Hsame. reflexivity.
Qed.

Lemma ServiceAccounts_Get_Ok (kube : kubeInterface) (namespace name : string)
    (w w' : World) (sa : ServiceAccount) :
  ServiceAccounts_Get kube namespace name w = (Ok sa, w') →
  cluster w' = cluster w
  ∧ ∃ refs, serviceAccounts (cluster w) !! (namespace, name) = Some refs
            ∧ sa = {| sa_Name := name; sa_ImagePullSecrets := refs |}.
Proof.
  unfold ServiceAccounts_Get. intros H. apply bind_Ok in H as (reply & w1 & Hreq & Hret).
  apply request_Ok, serve_inr in Hreq as (Hsame & refs & Hrefs & ->).
  unfold ret in Hret. injection Hret as <- <-.
  split; [exact Hsame |]. exists refs. split; [exact Hrefs | reflexivity].
Qed.

(** When the step for the service account succeeds, the default account
    was there, and its list is now the one [setImagePullSecret] gives. *)
Lemma reconcileServiceAccount_Ok (kube : kubeInterface) (namespace secretName : string)
    (w w' : World) :
  reconcileServiceAccount kube namespace secretName w = (Ok tt, w') →
  ∃ refs, serviceAccounts (cluster w) !! (namespace, "default") = Some refs
          ∧ cluster w'
            = setServiceAccounts
                (<[(namespace, "default") := setImagePullSecret secretName refs]>
                   (serviceAccounts (cluster w)))
                (cluster w).
Proof.
  unfold reconcileServiceAccount. intros H. apply bind_Ok in H as (sa & w1 & Hget & Hput).
  apply ServiceAccounts_Get_Ok in Hget as (Hsame & refs & Hrefs & ->).
  apply request_unit_Ok in Hput as (reply & Hserve). apply serve_inr in Hserve. simpl in Hserve.
  exists refs. split; [exact Hrefs |]. rewrite Hserve, Hsame. reflexivity.
Qed.

(** The step for the service account leaves the secrets alone, whatever
    its outcome. *)
Lemma reconcileServiceAccount_secrets (kube : kubeInterface) (namespace secretName : string)
    (w : World) :
  secrets (cluster (reconcileServiceAccount kube namespace secretName w).2)
  = secrets (cluster w).
Proof.
  unfold reconcileServiceAccount, ServiceAccounts_Get, ServiceAccounts_Update, bind, ret.
  pose proof (request_spec kube (ServiceAccountsGet namespace "default") w)
    as (_ & _ & _ & _ & _ & H).
  destruct (request kube (ServiceAccountsGet namespace "default") w) as [[reply|e|p] w1];
    cbn [fst snd] in *; [| rewrite H; reflexivity | contradiction].
  apply serve_inr in H as (Hsame & _).
  match goal with |- context [request kube ?call w1] =>
    pose proof (request_spec kube call w1) as (_ & _ & _ & _ & _ & H');
    destruct (request kube call w1) as [[reply'|e'|p'] w2]
  end; cbn [fst snd] in *; [| rewrite H', Hsame; reflexivity | contradiction].
  apply serve_inr in H'. rewrite H', Hsame. reflexivity.
Qed.

(** When both steps succeed for a namespace: the cluster afterwards. *)
Lemma reconcileNamespace_Ok (kube : kubeInterface) (namespace secretName : string)
    (newSecret : Secret) (w w' : World) :
  reconcileNamespace kube namespace secretName newSecret w = (Ok tt, w') →
  ∃ refs, serviceAccounts (cluster w) !! (namespace, "default") = Some refs
          ∧ cluster w'
            = {| namespaces := namespaces (cluster w);
                 secrets :=
                   <[(namespace, secret_Name newSecret) := newSecret]> (secrets (cluster w));
                 serviceAccounts :=
                   <[(namespace, "default") := setImagePullSecret secretName refs]>
                     (serviceAccounts (cluster w)) |}.
Proof.
  unfold reconcileNamespace. intros H. apply bind_Ok in H as ([] & w1 & Hsecret & Haccount).
  apply reconcileSecret_Ok in Hsecret.
  apply reconcileServiceAccount_Ok in Haccount as (refs & Hrefs & Hcluster).
  rewrite Hsecret in Hrefs, Hcluster. exists refs. split; [exact Hrefs | exact Hcluster].
Qed.

Lemma forEach_abort {A} (before after : list A) (x : A) (body : A → M unit)
    (w w1 w2 : World) (e : error) :
  forEach before body w = (Ok tt, w1) →
  body x w1 = (Err e, w2) →
  forEach (before ++ x :: after) body w = (Err e, w2).
Proof.
  intros Hbefore Hx. rewrite (forEach_app _ _ _ _ _ Hbefore). simpl.
  apply bind_of_Err. exact Hx.
Qed.

(** The requests of the two steps, in order. *)
Lemma reconcileSecret_calls (kube : kubeInterface) (namespace secretName : string)
    (newSecret : Secret) (w : World) :
  ∃ write,
    (write = SecretsCreate namespace newSecret ∨ write = SecretsUpdate namespace newSecret)
    ∧ apiCalls (reconcileSecret kube namespace secretName newSecret w).2
      = apiCalls w ++ [SecretsGet namespace secretName; write].
Proof.
  unfold reconcileSecret, Secrets_Get, Secrets_Create, Secrets_Update, attempt, bind, ret.
  pose proof (request_spec kube (SecretsGet namespace secretName) w) as (Hget & _ & _ & _ & _ & Hr).
  destruct (request kube (SecretsGet namespace secretName) w) as [[reply|e|p] w1];
    cbn [fst snd] in *; [| | contradiction].
  - exists (SecretsUpdate namespace newSecret). split; [right; reflexivity |].
    pose proof (request_spec kube (SecretsUpdate namespace newSecret) w1) as (Hput & _).
    destruct (request kube (SecretsUpdate namespace newSecret) w1) as [[reply'|e'|p'] w2];
      cbn [fst snd] in *; rewrite Hput, Hget, <- app_assoc; reflexivity.
  - exists (SecretsCreate namespace newSecret). split; [left; reflexivity |].
    pose proof (request_spec kube (SecretsCreate namespace newSecret) w1) as (Hput & _).
    destruct (request kube (SecretsCreate namespace newSecret) w1) as [[reply'|e'|p'] w2];
      cbn [fst snd] in *; rewrite Hput, Hget, <- app_assoc; reflexivity.
Qed.

Lemma reconcileServiceAccount_calls (kube : kubeInterface) (namespace secretName : string)
    (w : World) :
  ∃ rest,
    apiCalls (reconcileServiceAccount kube namespace secretName w).2
    = apiCalls w ++ ServiceAccountsGet namespace "default" :: rest.
Proof.
  unfold reconcileServiceAccount, ServiceAccounts_Get, ServiceAccounts_Update, bind, ret.
  pose proof (request_spec kube (ServiceAccountsGet namespace "default") w) as (Hget & _).
  destruct (request kube (ServiceAccountsGet namespace "default") w) as [[reply|e|p] w1];
    cbn [fst snd] in *; [| exists []; exact Hget | exists []; exact Hget].
  match goal with |- context [request kube ?call w1] =>
    pose proof (request_spec kube call w1) as (Hput & _);
    destruct (request kube call w1) as [[reply'|e'|p'] w2]; exists [call]
  end; cbn [fst snd] in *; rewrite Hput, Hget, <- app_assoc; reflexivity.
Qed.

(** C10.  The reconciliation of a namespace is not atomic.  The secret is
    written (created or updated) before the default service account is
    looked up: the requests are the get of the secret, its write, then the
    get of the service account.  If then the lookup or the write of the
    service account fails, the secret just written stays in the cluster,
    and the run stops there with that error: the loop over the namespaces,
    the generator and the loop over the generators all return it, visiting
    nothing further. *)
Theorem reconcileNamespace_not_atomic (c : controller) (g : SecretGenerator)
    (token : AuthToken) (before after : list Namespace) (namespace : Namespace)
    (w0 wa wb w w1 w2 : World) (e : error) :
  let newSecret :=
    generateSecretObj (AccessToken token) (Endpoint token) (IsJSONCfg g) (SecretName g) in
  TokenGenFxn g w0 = (Ok token, wa) →
  Namespaces_List (kubeClient c) wa = (Ok (before ++ namespace :: after), wb) →
  forEach before (processNamespace (kubeClient c) (SecretName g) newSecret) wb = (Ok tt, w) →
  GetName namespace ≠ "kube-system" →
  reconcileSecret (kubeClient c) (GetName namespace) (SecretName g) newSecret w = (Ok tt, w1) →
  reconcileServiceAccount (kubeClient c) (GetName namespace) (SecretName g) w1 = (Err e, w2) →
  secrets (cluster w2) !! (GetName namespace, SecretName g) = Some newSecret
  ∧ (∃ write rest,
       (write = SecretsCreate (GetName namespace) newSecret
        ∨ write = SecretsUpdate (GetName namespace) newSecret)
       ∧ apiCalls w2
         = apiCalls w
           ++ SecretsGet (GetName namespace) (SecretName g) :: write
           :: ServiceAccountsGet (GetName namespace) "default" :: rest)
  ∧ forEach (before ++ namespace :: after)
      (processNamespace (kubeClient c) (SecretName g) newSecret) wb = (Err e, w2)
  ∧ processGenerator c g w0 = (Err e, w2)
  ∧ ∀ done todo w00,
      forEach done (processGenerator c) w00 = (Ok tt, w0) →
      forEach (done ++ g :: todo) (processGenerator c) w00 = (Err e, w2).
Proof.
  intros newSecret Htoken Hlist Hbefore Hname Hsecret Haccount.
  assert (∃ write rest,
            (write = SecretsCreate (GetName namespace) newSecret
             ∨ write = SecretsUpdate (GetName namespace) newSecret)
            ∧ apiCalls w2
              = apiCalls w
                ++ SecretsGet (GetName namespace) (SecretName g) :: write
                :: ServiceAccountsGet (GetName namespace) "default" :: rest) as Horder.
  { destruct (reconcileSecret_calls (kubeClient c) (GetName namespace) (SecretName g)
                newSecret w) as (write & Hwrite & Hcalls1).
    destruct (reconcileServiceAccount_calls (kubeClient c) (GetName namespace)
                (SecretName g) w1) as (rest & Hcalls2).
    rewrite Hsecret in Hcalls1. rewrite Haccount in Hcalls2. cbn [fst snd] in *.
    exists write, rest. split; [exact Hwrite |].
    rewrite Hcalls2, Hcalls1, <- app_assoc. reflexivity. }
  assert (secrets (cluster w2) !! (GetName namespace, SecretName g) = Some newSecret) as Hkept.
  { pose proof (reconcileServiceAccount_secrets (kubeClient c) (GetName namespace)
                  (SecretName g) w1) as Hsame.
    rewrite Haccount in Hsame. simpl in Hsame. rewrite Hsame.
    apply reconcileSecret_Ok in Hsecret. rewrite Hsecret. simpl.
    replace (secret_Name newSecret) with (SecretName g)
      by (unfold newSecret, generateSecretObj; destruct (IsJSONCfg g); reflexivity).
    apply lookup_insert_eq. }
  assert (forEach (before ++ namespace :: after)
            (processNamespace (kubeClient c) (SecretName g) newSecret) wb = (Err e, w2))
    as Hloop.
  { apply (forEach_abort _ _ _ _ _ _ _ _ Hbefore).
    unfold processNamespace. apply String.eqb_neq in Hname. rewrite Hname.
    unfold reconcileNamespace. rewrite (bind_of_Ok _ _ _ _ _ Hsecret). exact Haccount. }
  assert (processGenerator c g w0 = (Err e, w2)) as Hgen.
  { unfold processGenerator. rewrite (bind_of_Ok _ _ _ _ _ Htoken).
    rewrite (bind_of_Ok _ _ _ _ _ Hlist). apply bind_of_Err. exact Hloop. }
  repeat split; try assumption.
  intros done todo w00 Hdone. exact (forEach_abort _ _ _ _ _ _ _ _ Hdone Hgen).
Qed.

Lemma reconcileNamespace_not_atomic_witness :
  let lookupFails := Sample.withKube (Sample.failsAt 3) in
  let writeFails := Sample.withKube (Sample.failsAt 4) in
  let run c := processGenerator c (gcrGenerator c defaultFlags) (Sample.world Sample.teamA) in
  let newSecret := generateSecretObj "gcr-token" "https://gcr.io" false "gcr-secret" in
  ((run lookupFails).1 = Err (StatusFailure "internal error")
   ∧ secrets (cluster (run lookupFails).2) !! ("team-a", "gcr-secret") = Some newSecret)
  ∧ ((run writeFails).1 = Err (StatusFailure "internal error")
     ∧ secrets (cluster (run writeFails).2) !! ("team-a", "gcr-secret") = Some newSecret).
Proof.
  cbv zeta.
  set (newSecret := generateSecretObj "gcr-token" "https://gcr.io" false "gcr-secret").
  set (w0 := Sample.world Sample.teamA).
  split.
  - set (c := Sample.withKube (Sample.failsAt 3)).
    set (g := gcrGenerator c defaultFlags).
    set (wa := (TokenGenFxn g w0).2).
    set (wb := (Namespaces_List (kubeClient c) wa).2).
    set (w1 := (reconcileSecret (kubeClient c) "team-a" "gcr-secret" newSecret wb).2).
    set (w2 := (reconcileServiceAccount (kubeClient c) "team-a" "gcr-secret" w1).2).
    destruct (reconcileNamespace_not_atomic c g
                {| AccessToken := "gcr-token"; Endpoint := "https://gcr.io" |}
                [ {| ns_Name := "kube-system" |} ] [] {| ns_Name := "team-a" |}
                w0 wa wb wb w1 w2 (StatusFailure "internal error"))
      as (Hkept & _ & _ & Hrun & _);
      [vm_compute; reflexivity | vm_compute; reflexivity | vm_compute; reflexivity
      | discriminate | vm_compute; reflexivity | vm_compute; reflexivity |].
    rewrite Hrun. split; [reflexivity | exact Hkept].
  - set (c := Sample.withKube (Sample.failsAt 4)).
    set (g := gcrGenerator c defaultFlags).
    set (wa := (TokenGenFxn g w0).2).
    set (wb := (Namespaces_List (kubeClient c) wa).2).
    set (w1 := (reconcileSecret (kubeClient c) "team-a" "gcr-secret" newSecret wb).2).
    set (w2 := (reconcileServiceAccount (kubeClient c) "team-a" "gcr-secret" w1).2).
    destruct (reconcileNamespace_not_atomic c g
                {| AccessToken := "gcr-token"; Endpoint := "https://gcr.io" |}
                [ {| ns_Name := "kube-system" |} ] [] {| ns_Name := "team-a" |}
                w0 wa wb wb w1 w2 (StatusFailure "internal error"))
      as (Hkept & _ & _ & Hrun & _);
      [vm_compute; reflexivity | vm_compute; reflexivity | vm_compute; reflexivity
      | discriminate | vm_compute; reflexivity | vm_compute; reflexivity |].
    rewrite Hrun. split; [reflexivity | exact Hkept].
Defined.

(** ** Reconciling a namespace twice *)

(** C6, as the code has it.  When a namespace is reconciled twice in
    succession with the same secret, the second time changes nothing in
    the cluster: the secret keeps its content and the list of the default
    service account does not grow.  The list has the entries it had before
    the first time, and the name once more at the end if it was not there:
    the number of entries with the name is what it was, or one if it was
    zero. *)
Theorem reconcileNamespace_twice (kube : kubeInterface) (namespace secretName : string)
    (newSecret : Secret) (w w1 w2 : World) :
  reconcileNamespace kube namespace secretName newSecret w = (Ok tt, w1) →
  reconcileNamespace kube namespace secretName newSecret w1 = (Ok tt, w2) →
  cluster w2 = cluster w1
  ∧ secrets (cluster w2) !! (namespace, secret_Name newSecret) = Some newSecret
  ∧ ∃ refs,
      serviceAccounts (cluster w) !! (namespace, "default") = Some refs
      ∧ serviceAccounts (cluster w2) !! (namespace, "default")
        = Some (setImagePullSecret secretName refs)
      ∧ refs `prefix_of` setImagePullSecret secretName refs
      ∧ countImagePullSecrets secretName (setImagePullSecret secretName refs)
        = Nat.max 1 (countImagePullSecrets secretName refs).
Proof.
  intros Hfirst Hsecond.
  apply reconcileNamespace_Ok in Hfirst as (refs & Hrefs & Hcl1).
  apply reconcileNamespace_Ok in Hsecond as (refs1 & Hrefs1 & Hcl2).
  rewrite Hcl1 in Hrefs1. simpl in Hrefs1. rewrite lookup_insert_eq in Hrefs1.
  injection Hrefs1 as <-.
  assert (cluster w2 = cluster w1) as Hsame.
  { rewrite Hcl2, Hcl1. simpl.
    rewrite !insert_insert_eq, setImagePullSecret_idempotent. reflexivity. }
  split; [exact Hsame |]. rewrite Hsame, Hcl1. simpl.
  split; [apply lookup_insert_eq |].
  exists refs. split; [exact Hrefs |]. split; [apply lookup_insert_eq |].
  split; [apply setImagePullSecret_prefix | apply countImagePullSecrets_set].
Qed.

Lemma reconcileNamespace_twice_witness :
  let newSecret := generateSecretObj "gcr-token" "https://gcr.io" false "gcr-secret" in
  let first :=
    reconcileNamespace Sample.noFaults "team-a" "gcr-secret" newSecret
      (Sample.world Sample.teamA) in
  let second :=
    reconcileNamespace Sample.noFaults "team-a" "gcr-secret" newSecret first.2 in
  cluster second.2 = cluster first.2
  ∧ serviceAccounts (cluster second.2) !! ("team-a", "default")
    = Some [ {| ref_Name := "other-reg" |}; {| ref_Name := "gcr-secret" |} ].
Proof.
  cbv zeta.
  set (newSecret := generateSecretObj "gcr-token" "https://gcr.io" false "gcr-secret").
  set (w := Sample.world Sample.teamA).
  set (w1 := (reconcileNamespace Sample.noFaults "team-a" "gcr-secret" newSecret w).2).
  set (w2 := (reconcileNamespace Sample.noFaults "team-a" "gcr-secret" newSecret w1).2).
  destruct (reconcileNamespace_twice Sample.noFaults "team-a" "gcr-secret" newSecret w w1 w2)
    as (Hsame & _ & refs & Hrefs & Hlist & _).
  - vm_compute. reflexivity.
  - vm_compute. reflexivity.
  - split; [exact Hsame |]. rewrite Hlist. f_equal.
    assert (refs = [ {| ref_Name := "other-reg" |} ]) as ->
      by (vm_compute in Hrefs; congruence).
    reflexivity.
Defined.

(** C6 does not hold as it is stated: a list that has the name twice keeps
    it twice.  The loop breaks at the first entry with the name, so the
    second one is never looked at. *)
Lemma reconcileNamespace_twice_keeps_duplicates :
  let newSecret := generateSecretObj "gcr-token" "https://gcr.io" false "gcr-secret" in
  let first :=
    reconcileNamespace Sample.noFaults "team-b" "gcr-secret" newSecret
      (Sample.world Sample.twice) in
  let second :=
    reconcileNamespace Sample.noFaults "team-b" "gcr-secret" newSecret first.2 in
  first.1 = Ok tt
  ∧ second.1 = Ok tt
  ∧ serviceAccounts (cluster second.2) !! ("team-b", "default")
    = Some [ {| ref_Name := "gcr-secret" |}; {| ref_Name := "gcr-secret" |} ]
  ∧ countImagePullSecrets "gcr-secret"
      [ {| ref_Name := "gcr-secret" |}; {| ref_Name := "gcr-secret" |} ] = 2.
Proof. vm_compute. repeat split; reflexivity. Qed.

(** ** What a run leaves alone *)

Ltac keeps_structure Hrefl Htrans :=
  repeat match goal with
    | |- keeps _ (bind _ _) => apply (keeps_bind _ Htrans); [| intros ?]
    | |- keeps _ (attempt _) => apply keeps_attempt
    | |- keeps _ (ret _) => apply (keeps_ret _ Hrefl)
    | |- keeps _ (fail _) => apply (keeps_fail _ Hrefl)
    | |- keeps _ (raise _) => apply (keeps_raise _ Hrefl)
    | |- keeps _ (match ?x with _ => _ end) => destruct x
    end.

Lemma quiet_refl (w : World) : quiet w w.
Proof. split; reflexivity. Qed.

Lemma quiet_trans (w1 w2 w3 : World) : quiet w1 w2 → quiet w2 w3 → quiet w1 w3.
Proof. intros [H1 H2] [H3 H4]. split; congruence. Qed.

Lemma getGCRAuthorizationKey_quiet (c : controller) (fl : Flags) :
  keeps quiet (getGCRAuthorizationKey c fl).
Proof.
  unfold getGCRAuthorizationKey, ts_Token.
  keeps_structure quiet_refl quiet_trans; intros w;
    try (split; reflexivity).
  unfold gcr_DefaultTokenSource.
  destruct (DefaultTokenSource _ _ _); split; reflexivity.
Qed.

Lemma getECRAuthorizationKey_quiet (c : controller) (fl : Flags) :
  keeps quiet (getECRAuthorizationKey c fl).
Proof.
  unfold getECRAuthorizationKey, index, deref.
  keeps_structure quiet_refl quiet_trans; intros w;
    try (split; reflexivity).
  unfold ecr_GetAuthorizationToken.
  destruct (GetAuthorizationToken _ _ _); split; reflexivity.
Qed.

Lemma TokenGenFxn_quiet (c : controller) (fl : Flags) (g : SecretGenerator) :
  g ∈ secretGenerators c fl → keeps quiet (TokenGenFxn g).
Proof.
  rewrite secretGenerators_eq. intros Hg.
  apply elem_of_cons in Hg as [->|Hg]; [apply getGCRAuthorizationKey_quiet |].
  apply elem_of_cons in Hg as [->|Hg]; [apply getECRAuthorizationKey_quiet |].
  apply elem_of_nil in Hg. contradiction.
Qed.

(** C1, as the code has it.  If the fetch of a token provider fails, the
    run returns that error at once and makes no request to the cluster
    from then on: the cluster and the list of requests are as they were
    when the fetch began, after the generators that came before.  For the
    first generator that is the cluster as the run found it. *)
Theorem process_provider_failure (c : controller) (fl : Flags)
    (done todo : list SecretGenerator) (g : SecretGenerator) (w w1 w2 : World) (e : error) :
  secretGenerators c fl = done ++ g :: todo →
  forEach done (processGenerator c) (addLog "Processing Credentials..." w) = (Ok tt, w1) →
  TokenGenFxn g w1 = (Err e, w2) →
  process c fl w = (Err e, w2)
  ∧ cluster w2 = cluster w1
  ∧ apiCalls w2 = apiCalls w1
  ∧ (done = [] → cluster w2 = cluster w ∧ apiCalls w2 = apiCalls w).
Proof.
  intros Hgens Hdone Hfetch.
  assert (quiet w1 w2) as [Hcluster Hcalls].
  { pose proof (TokenGenFxn_quiet c fl g) as Hquiet.
    rewrite Hgens in Hquiet. specialize (Hquiet ltac:(set_solver) w1).
    rewrite Hfetch in Hquiet. exact Hquiet. }
  split; [| split; [exact Hcluster | split; [exact Hcalls |]]].
  - unfold process, log_Print. unfold bind at 1. rewrite Hgens.
    apply (forEach_abort _ _ _ _ _ _ _ _ Hdone).
    unfold processGenerator. apply bind_of_Err. exact Hfetch.
  - intros ->. simpl in Hdone. unfold ret in Hdone. injection Hdone as <-.
    rewrite Hcluster, Hcalls. split; reflexivity.
Qed.

Lemma process_provider_failure_witness :
  (process Sample.gcrFailing defaultFlags (Sample.world Sample.teamA)).1
  = Err (RemoteError "no default credentials")
  ∧ cluster (process Sample.gcrFailing defaultFlags (Sample.world Sample.teamA)).2
    = Sample.teamA
  ∧ (process Sample.ecrFailing defaultFlags (Sample.world Sample.teamA)).1
    = Err (RemoteError "ecr unreachable").
Proof.
  set (w := Sample.world Sample.teamA).
  set (w0 := addLog "Processing Credentials..." w).
  destruct (process_provider_failure Sample.gcrFailing defaultFlags
              [] [ecrGenerator Sample.gcrFailing defaultFlags]
              (gcrGenerator Sample.gcrFailing defaultFlags) w w0
              (getGCRAuthorizationKey Sample.gcrFailing defaultFlags w0).2
              (RemoteError "no default credentials"))
    as (Hrun & _ & _ & Hfirst); [reflexivity | reflexivity | vm_compute; reflexivity |].
  destruct (Hfirst eq_refl) as [Hcluster _].
  rewrite Hrun. split; [reflexivity |]. split; [exact Hcluster |].
  set (w1 := (processGenerator Sample.ecrFailing
                (gcrGenerator Sample.ecrFailing defaultFlags) w0).2).
  destruct (process_provider_failure Sample.ecrFailing defaultFlags
              [gcrGenerator Sample.ecrFailing defaultFlags] []
              (ecrGenerator Sample.ecrFailing defaultFlags) w w1
              (getECRAuthorizationKey Sample.ecrFailing defaultFlags w1).2
              (RemoteError "ecr unreachable"))
    as (Hrun' & _); [reflexivity | vm_compute; reflexivity | vm_compute; reflexivity |].
  rewrite Hrun'. reflexivity.
Defined.

(** C1 does not hold as it is stated.  The ECR provider is the second one:
    when its fetch fails, the GCR generator has been through every
    namespace, and the secret and the service account it wrote stay. *)
Lemma process_provider_failure_after_writes :
  let run := process Sample.ecrFailing defaultFlags (Sample.world Sample.teamA) in
  run.1 = Err (RemoteError "ecr unreachable")
  ∧ secrets (cluster run.2) !! ("team-a", "gcr-secret")
    = Some (generateSecretObj "gcr-token" "https://gcr.io" false "gcr-secret")
  ∧ secrets Sample.teamA !! ("team-a", "gcr-secret") = None
  ∧ serviceAccounts (cluster run.2) !! ("team-a", "default")
    = Some [ {| ref_Name := "other-reg" |}; {| ref_Name := "gcr-secret" |} ]
  ∧ serviceAccounts Sample.teamA !! ("team-a", "default")
    = Some [ {| ref_Name := "other-reg" |} ].
Proof. vm_compute. repeat split; reflexivity. Qed.

(** ** The namespace kube-system *)

Lemma log_Print_quiet (line : string) : keeps quiet (log_Print line).
Proof. intros w. split; reflexivity. Qed.

Lemma sparesKubeSystem_refl (w : World) : sparesKubeSystem w w.
Proof.
  split; [| split; reflexivity].
  exists []. split; [rewrite app_nil_r; reflexivity | constructor].
Qed.

Lemma sparesKubeSystem_trans (w1 w2 w3 : World) :
  sparesKubeSystem w1 w2 → sparesKubeSystem w2 w3 → sparesKubeSystem w1 w3.
Proof.
  intros ((l1 & H1 & HP1) & Hs1 & Ha1) ((l2 & H2 & HP2) & Hs2 & Ha2).
  split; [| split].
  - exists (l1 ++ l2). split.
    + rewrite H2, H1, app_assoc. reflexivity.
    + apply Forall_app. split; assumption.
  - intros name. rewrite Hs2. apply Hs1.
  - intros name. rewrite Ha2. apply Ha1.
Qed.

Lemma quiet_sparesKubeSystem {A} (m : M A) :
  keeps quiet m → keeps sparesKubeSystem m.
Proof.
  intros Hm w. destruct (Hm w) as [Hcluster Hcalls]. split; [| split].
  - exists []. split; [rewrite Hcalls, app_nil_r; reflexivity | constructor].
  - intros name. rewrite Hcluster. reflexivity.
  - intros name. rewrite Hcluster. reflexivity.
Qed.

(** A request for another namespace, or for the list of namespaces. *)
Lemma request_sparesKubeSystem (kube : kubeInterface) (call : ApiCall) :
  outsideKubeSystem call → keeps sparesKubeSystem (request kube call).
Proof.
  intros Hcall w.
  destruct (request_spec kube call w) as (Hcalls & _ & _ & _ & _ & Hr).
  split.
  { exists [call]. split; [exact Hcalls |]. constructor; [exact Hcall | constructor]. }
  destruct (request kube call w) as [[reply|e|p] w1]; cbn [fst snd] in *;
    [| rewrite Hr; split; reflexivity | contradiction].
  apply serve_inr in Hr. unfold outsideKubeSystem in Hcall.
  destruct call as [|ns name|ns s|ns s|ns name|ns sa]; simpl in Hcall.
  - destruct Hr as [-> _]. split; reflexivity.
  - rewrite Hr. split; reflexivity.
  - rewrite Hr. simpl. split; intros key; [apply lookup_insert_ne; congruence | reflexivity].
  - rewrite Hr. simpl. split; intros key; [apply lookup_insert_ne; congruence | reflexivity].
  - destruct Hr as [-> _]. split; reflexivity.
  - rewrite Hr. simpl. split; intros key; [reflexivity | apply lookup_insert_ne; congruence].
Qed.

Lemma reconcileNamespace_sparesKubeSystem (kube : kubeInterface)
    (namespace secretName : string) (newSecret : Secret) :
  namespace ≠ "kube-system" →
  keeps sparesKubeSystem (reconcileNamespace kube namespace secretName newSecret).
Proof.
  intros Hname.
  unfold reconcileNamespace, reconcileSecret, reconcileServiceAccount, Secrets_Get,
    Secrets_Create, Secrets_Update, ServiceAccounts_Get, ServiceAccounts_Update.
  keeps_structure sparesKubeSystem_refl sparesKubeSystem_trans;
    apply request_sparesKubeSystem; unfold outsideKubeSystem; simpl; congruence.
Qed.

Lemma processNamespace_sparesKubeSystem (kube : kubeInterface) (secretName : string)
    (newSecret : Secret) (namespace : Namespace) :
  keeps sparesKubeSystem (processNamespace kube secretName newSecret namespace).
Proof.
  unfold processNamespace. destruct (String.eqb_spec (GetName namespace) "kube-system").
  - apply keeps_ret, sparesKubeSystem_refl.
  - apply reconcileNamespace_sparesKubeSystem. assumption.
Qed.

Lemma processGenerator_sparesKubeSystem (c : controller) (fl : Flags) (g : SecretGenerator) :
  g ∈ secretGenerators c fl →
  keeps sparesKubeSystem (processGenerator c g).
Proof.
  intros Hg. unfold processGenerator, Namespaces_List.
  keeps_structure sparesKubeSystem_refl sparesKubeSystem_trans.
  - apply quiet_sparesKubeSystem. exact (TokenGenFxn_quiet c fl g Hg).
  - apply request_sparesKubeSystem. unfold outsideKubeSystem. simpl. congruence.
  - apply keeps_forEach;
      [apply sparesKubeSystem_refl | apply sparesKubeSystem_trans |].
    intros namespace _. apply processNamespace_sparesKubeSystem.
  - apply quiet_sparesKubeSystem, log_Print_quiet.
Qed.

(** C7.  In every run, whatever its outcome, no request is made for the
    namespace kube-system: no get, create or update of a secret and no get
    or update of a service account is scoped to it (the requests of the
    run are those added to the list of requests).  So the secrets and the
    service accounts of kube-system are after the run what they were
    before it. *)
Theorem process_skips_kube_system (c : controller) (fl : Flags) (w : World) :
  (∃ calls,
     apiCalls (process c fl w).2 = apiCalls w ++ calls
     ∧ Forall (λ call, callNamespace call ≠ Some "kube-system") calls)
  ∧ (∀ name,
       secrets (cluster (process c fl w).2) !! ("kube-system", name)
       = secrets (cluster w) !! ("kube-system", name))
  ∧ (∀ name,
       serviceAccounts (cluster (process c fl w).2) !! ("kube-system", name)
       = serviceAccounts (cluster w) !! ("kube-system", name)).
Proof.
  assert (keeps sparesKubeSystem (process c fl)) as Hkeeps.
  { unfold process.
    keeps_structure sparesKubeSystem_refl sparesKubeSystem_trans.
    - apply quiet_sparesKubeSystem, log_Print_quiet.
    - apply keeps_forEach;
        [apply sparesKubeSystem_refl | apply sparesKubeSystem_trans |].
      intros g Hg. exact (processGenerator_sparesKubeSystem c fl g Hg). }
  exact (Hkeeps w).
Qed.

(** A run over a cluster that has kube-system: the requests it makes. *)
Example process_skips_kube_system_teamA :
  apiCalls (process Sample.good defaultFlags (Sample.world Sample.teamA)).2
  = [ NamespacesList;
      SecretsGet "team-a" "gcr-secret";
      SecretsCreate "team-a"
        (generateSecretObj "gcr-token" "https://gcr.io" false "gcr-secret");
      ServiceAccountsGet "team-a" "default";
      ServiceAccountsUpdate "team-a"
        {| sa_Name := "default";
           sa_ImagePullSecrets :=
             [ {| ref_Name := "other-reg" |}; {| ref_Name := "gcr-secret" |} ] |};
      NamespacesList;
      SecretsGet "team-a" "awsecr-cred";
      SecretsCreate "team-a"
        (generateSecretObj "ecr-token" "https://ecr.example" true "awsecr-cred");
      ServiceAccountsGet "team-a" "default";
      ServiceAccountsUpdate "team-a"
        {| sa_Name := "default";
           sa_ImagePullSecrets :=
             [ {| ref_Name := "other-reg" |}; {| ref_Name := "gcr-secret" |};
               {| ref_Name := "awsecr-cred" |} ] |} ].
Proof. vm_compute. reflexivity. Qed.

(** ** A pass over the namespaces that succeeds *)

Lemma visits_cons (namespace : Namespace) (items : list Namespace) (name : string) :
  visits (namespace :: items) name
  = (String.eqb (GetName namespace) name
     && negb (String.eqb (GetName namespace) "kube-system"))
    || visits items name.
Proof.
  unfold visits. simpl.
  destruct (String.eqb_spec (GetName namespace) name) as [->|_]; simpl.
  - destruct (existsb _ items), (String.eqb name "kube-system"); reflexivity.
  - reflexivity.
Qed.

Lemma visits_elem_of (namespace : Namespace) (items : list Namespace) :
  namespace ∈ items → GetName namespace ≠ "kube-system" →
  visits items (GetName namespace) = true.
Proof.
  intros Hin Hname. unfold visits. apply andb_true_intro. split.
  - apply existsb_exists. exists namespace. split.
    + apply list_elem_of_In. exact Hin.
    + apply String.eqb_refl.
  - apply String.eqb_neq in Hname. rewrite Hname. reflexivity.
Qed.

(** The cluster after the loop over the namespaces has succeeded: in the
    namespaces visited the secret is the new one and the list of the
    default account, which was there, went through [setImagePullSecret];
    the rest is as it was. *)
Lemma forEach_processNamespace_Ok (kube : kubeInterface) (secretName : string)
    (newSecret : Secret) (items : list Namespace) (w w' : World) :
  forEach items (processNamespace kube secretName newSecret) w = (Ok tt, w') →
  namespaces (cluster w') = namespaces (cluster w)
  ∧ (∀ ns n,
       secrets (cluster w') !! (ns, n)
       = if visits items ns && String.eqb n (secret_Name newSecret) then Some newSecret
         else secrets (cluster w) !! (ns, n))
  ∧ (∀ ns n,
       serviceAccounts (cluster w') !! (ns, n)
       = if visits items ns && String.eqb n "default"
         then setImagePullSecret secretName <$> serviceAccounts (cluster w) !! (ns, n)
         else serviceAccounts (cluster w) !! (ns, n))
  ∧ (∀ ns, visits items ns = true →
           is_Some (serviceAccounts (cluster w) !! (ns, "default"))).
Proof.
  revert w. induction items as [|x items IH]; intros w H; simpl in H.
  - unfold ret in H. injection H as <-. repeat split; try reflexivity.
    intros ns Hv. discriminate Hv.
  - apply bind_Ok in H as ([] & w1 & Hx & Hrest).
    apply IH in Hrest as (Hns & Hsec & Hsa & Hsome). clear IH.
    unfold processNamespace in Hx.
    destruct (String.eqb (GetName x) "kube-system") eqn:Hskip.
    + unfold ret in Hx. injection Hx as <-.
      split; [exact Hns |].
      split; [intros ns n; rewrite Hsec, visits_cons, Hskip, andb_false_r; reflexivity |].
      split; [intros ns n; rewrite Hsa, visits_cons, Hskip, andb_false_r; reflexivity |].
      intros ns Hv. rewrite visits_cons, Hskip, andb_false_r in Hv. apply Hsome. exact Hv.
    + apply reconcileNamespace_Ok in Hx as (refs & Hrefs & Hcl).
      split; [rewrite Hns, Hcl; reflexivity |].
      split; [| split].
      * intros ns n. rewrite Hsec, visits_cons, Hskip, Hcl. simpl. rewrite andb_true_r.
        destruct (visits items ns);
          destruct (String.eqb_spec (GetName x) ns) as [<-|Hne];
          destruct (String.eqb_spec n (secret_Name newSecret)) as [->|Hne']; simpl;
          rewrite ?lookup_insert_eq; try reflexivity;
          apply lookup_insert_ne; congruence.
      * intros ns n. rewrite Hsa, visits_cons, Hskip, Hcl. simpl. rewrite andb_true_r.
        destruct (visits items ns);
          destruct (String.eqb_spec (GetName x) ns) as [<-|Hne];
          destruct (String.eqb_spec n "default") as [->|Hne']; simpl;
          rewrite ?lookup_insert_eq, ?Hrefs; simpl;
          rewrite ?setImagePullSecret_idempotent; try reflexivity;
          rewrite lookup_insert_ne by congruence; reflexivity.
      * intros ns Hv. rewrite visits_cons, Hskip, andb_true_r in Hv.
        destruct (String.eqb_spec (GetName x) ns) as [Heq|Hne].
        -- rewrite <- Heq, Hrefs. eexists. reflexivity.
        -- simpl in Hv. apply Hsome in Hv. rewrite Hcl in Hv. simpl in Hv.
           rewrite lookup_insert_ne in Hv by congruence. exact Hv.
Qed.

Lemma Namespaces_List_Ok (kube : kubeInterface) (w w' : World) (items : list Namespace) :
  Namespaces_List kube w = (Ok items, w') →
  items = namespaces (cluster w) ∧ cluster w' = cluster w.
Proof.
  unfold Namespaces_List. intros H. apply bind_Ok in H as (reply & w1 & Hreq & Hret).
  apply request_Ok, serve_inr in Hreq as (Hsame & ->).
  unfold ret in Hret. injection Hret as <- <-. split; [reflexivity | exact Hsame].
Qed.

(** A generator that succeeds: its token was fetched, and the cluster went
    through the loop with the secret made of that token. *)
Lemma processGenerator_Ok (c : controller) (fl : Flags) (g : SecretGenerator)
    (w w' : World) :
  g ∈ secretGenerators c fl →
  processGenerator c g w = (Ok tt, w') →
  ∃ token,
    (TokenGenFxn g w).1 = Ok token
    ∧ passed (SecretName g)
        (generateSecretObj (AccessToken token) (Endpoint token) (IsJSONCfg g) (SecretName g))
        (cluster w) (cluster w').
Proof.
  intros Hg H. unfold processGenerator in H.
  apply bind_Ok in H as (token & wa & Htoken & H).
  apply bind_Ok in H as (items & wb & Hlist & H).
  apply bind_Ok in H as ([] & wc & Hloop & Hlog).
  unfold log_Print in Hlog. injection Hlog as <-.
  pose proof (TokenGenFxn_quiet c fl g Hg w) as [Hquiet _]. rewrite Htoken in Hquiet.
  simpl in Hquiet.
  apply Namespaces_List_Ok in Hlist as (-> & Hsame).
  apply forEach_processNamespace_Ok in Hloop.
  exists token. split; [rewrite Htoken; reflexivity |].
  unfold passed. simpl. rewrite Hsame, Hquiet in Hloop. exact Hloop.
Qed.

Lemma getGCRAuthorizationKey_fst (c : controller) (fl : Flags) (w1 w2 : World) :
  gcrCalls w1 = gcrCalls w2 →
  (getGCRAuthorizationKey c fl w1).1 = (getGCRAuthorizationKey c fl w2).1.
Proof.
  intros Hcalls.
  unfold getGCRAuthorizationKey, bind, attempt, gcr_DefaultTokenSource, ts_Token.
  rewrite Hcalls. destruct (DefaultTokenSource _ _ _) as [e|[[e|token]]]; simpl; try reflexivity.
  destruct (oauth2.Valid token); simpl; [| reflexivity].
  destruct (String.eqb (oauth2.Type_ token) "Bearer"); reflexivity.
Qed.

Lemma getECRAuthorizationKey_fst (c : controller) (fl : Flags) (w1 w2 : World) :
  ecrCalls w1 = ecrCalls w2 →
  (getECRAuthorizationKey c fl w1).1 = (getECRAuthorizationKey c fl w2).1.
Proof.
  intros Hcalls.
  unfold getECRAuthorizationKey, bind, attempt, ecr_GetAuthorizationToken.
  rewrite Hcalls. destruct (GetAuthorizationToken _ _ _) as [e|[entries]]; simpl;
    [reflexivity |].
  destruct entries as [|[[[accessToken|] [endpoint|]]|] rest]; reflexivity.
Qed.

Lemma sameEcrCalls_refl (w : World) : sameEcrCalls w w.
Proof. reflexivity. Qed.

Lemma sameEcrCalls_trans (w1 w2 w3 : World) :
  sameEcrCalls w1 w2 → sameEcrCalls w2 w3 → sameEcrCalls w1 w3.
Proof. unfold sameEcrCalls. congruence. Qed.

Lemma request_sameEcrCalls (kube : kubeInterface) (call : ApiCall) :
  keeps sameEcrCalls (request kube call).
Proof. intros w. apply (request_spec kube call w). Qed.

(** The GCR generator never calls ECR. *)
Lemma gcrGenerator_sameEcrCalls (c : controller) (fl : Flags) :
  keeps sameEcrCalls (processGenerator c (gcrGenerator c fl)).
Proof.
  unfold processGenerator, Namespaces_List. simpl.
  keeps_structure sameEcrCalls_refl sameEcrCalls_trans.
  - unfold getGCRAuthorizationKey, ts_Token.
    keeps_structure sameEcrCalls_refl sameEcrCalls_trans; intros w; try reflexivity.
    unfold gcr_DefaultTokenSource. destruct (DefaultTokenSource _ _ _); reflexivity.
  - apply request_sameEcrCalls.
  - apply keeps_forEach; [apply sameEcrCalls_refl | apply sameEcrCalls_trans |].
    intros namespace _.
    unfold processNamespace, reconcileNamespace, reconcileSecret, reconcileServiceAccount,
      Secrets_Get, Secrets_Create, Secrets_Update, ServiceAccounts_Get,
      ServiceAccounts_Update.
    destruct (String.eqb (GetName namespace) "kube-system");
      keeps_structure sameEcrCalls_refl sameEcrCalls_trans; apply request_sameEcrCalls.
  - intros w. reflexivity.
Qed.

(** ** A run that succeeds *)

Lemma generateSecretObj_name (token endpoint : string) (isJSONCfg : bool)
    (secretName : string) :
  secret_Name (generateSecretObj token endpoint isJSONCfg secretName) = secretName.
Proof. unfold generateSecretObj. destruct isJSONCfg; reflexivity. Qed.

Lemma countImagePullSecrets_set_twice (gcrName awsName name : string)
    (refs : list LocalObjectReference) :
  countImagePullSecrets name
    (setImagePullSecret awsName (setImagePullSecret gcrName refs))
  = if String.eqb name gcrName || String.eqb name awsName
    then Nat.max 1 (countImagePullSecrets name refs)
    else countImagePullSecrets name refs.
Proof.
  destruct (String.eqb_spec name awsName) as [->|Haws].
  - rewrite orb_true_r, countImagePullSecrets_set.
    destruct (String.eqb_spec awsName gcrName) as [->|Hgcr].
    + rewrite countImagePullSecrets_set. lia.
    + rewrite countImagePullSecrets_set_other by exact Hgcr. reflexivity.
  - rewrite orb_false_r, countImagePullSecrets_set_other by exact Haws.
    destruct (String.eqb_spec name gcrName) as [->|Hgcr].
    + apply countImagePullSecrets_set.
    + apply countImagePullSecrets_set_other. exact Hgcr.
Qed.

(** C3, as the code has it.  After a run that succeeds, for every namespace
    of the cluster other than kube-system: the secret named by
    aws-secret-name is the one made of the ECR token fetched in the run;
    the secret named by gcr-secret-name is the one made of the GCR token
    fetched in the run (the two names being different: with one name for
    both, the ECR secret, written last, is the one that stays); and the
    list of image pull secrets of the default service account is the list
    it was with each of the two names added at the end if it was not
    there.  So the entries that were there are untouched and in place, and
    a name is there as many times as before, or once if it was not there:
    entries with the same name are not brought down to one. *)
Theorem process_success (c : controller) (fl : Flags) (w w' : World) :
  process c fl w = (Ok tt, w') →
  ∃ gcrToken ecrToken,
    (getGCRAuthorizationKey c fl w).1 = Ok gcrToken
    ∧ (getECRAuthorizationKey c fl w).1 = Ok ecrToken
    ∧ ∀ namespace,
        namespace ∈ namespaces (cluster w) →
        GetName namespace ≠ "kube-system" →
        secrets (cluster w') !! (GetName namespace, argAWSSecretName fl)
        = Some (generateSecretObj (AccessToken ecrToken) (Endpoint ecrToken) true
                  (argAWSSecretName fl))
        ∧ (argGCRSecretName fl ≠ argAWSSecretName fl →
           secrets (cluster w') !! (GetName namespace, argGCRSecretName fl)
           = Some (generateSecretObj (AccessToken gcrToken) (Endpoint gcrToken) false
                     (argGCRSecretName fl)))
        ∧ ∃ refs,
            serviceAccounts (cluster w) !! (GetName namespace, "default") = Some refs
            ∧ serviceAccounts (cluster w') !! (GetName namespace, "default")
              = Some (setImagePullSecret (argAWSSecretName fl)
                        (setImagePullSecret (argGCRSecretName fl) refs))
            ∧ refs `prefix_of` setImagePullSecret (argAWSSecretName fl)
                                 (setImagePullSecret (argGCRSecretName fl) refs)
            ∧ ∀ name,
                countImagePullSecrets name
                  (setImagePullSecret (argAWSSecretName fl)
                     (setImagePullSecret (argGCRSecretName fl) refs))
                = if String.eqb name (argGCRSecretName fl)
                     || String.eqb name (argAWSSecretName fl)
                  then Nat.max 1 (countImagePullSecrets name refs)
                  else countImagePullSecrets name refs.
Proof.
  intros H. unfold process in H.
  apply bind_Ok in H as ([] & w0 & Hlog & H).
  unfold log_Print in Hlog. injection Hlog as <-.
  rewrite secretGenerators_eq in H. simpl in H.
  apply bind_Ok in H as ([] & w1 & Hgcr & H).
  apply bind_Ok in H as ([] & w2 & Hecr & H).
  unfold ret in H. injection H as <-.
  pose proof (gcrGenerator_sameEcrCalls c fl (addLog "Processing Credentials..." w)) as Hcalls.
  rewrite Hgcr in Hcalls. unfold sameEcrCalls in Hcalls. cbn [fst snd addLog ecrCalls] in Hcalls.
  apply (processGenerator_Ok c fl) in Hgcr as (gcrToken & HgcrToken & Hpass1);
    [| rewrite secretGenerators_eq; set_solver].
  apply (processGenerator_Ok c fl) in Hecr as (ecrToken & HecrToken & Hpass2);
    [| rewrite secretGenerators_eq; set_solver].
  cbn [gcrGenerator ecrGenerator TokenGenFxn IsJSONCfg SecretName] in *.
  exists gcrToken, ecrToken.
  split; [rewrite <- HgcrToken; apply getGCRAuthorizationKey_fst; reflexivity |].
  split; [rewrite <- HecrToken; apply getECRAuthorizationKey_fst; symmetry; exact Hcalls |].
  intros namespace Hin Hname.
  destruct Hpass1 as (Hns1 & Hsec1 & Hsa1 & Hsome1).
  destruct Hpass2 as (Hns2 & Hsec2 & Hsa2 & _).
  cbn [addLog cluster] in *.
  pose proof (visits_elem_of namespace _ Hin Hname) as Hv.
  rewrite Hns1 in Hsec2, Hsa2.
  split; [| split].
  - rewrite Hsec2, Hv, generateSecretObj_name, String.eqb_refl. reflexivity.
  - intros Hne. rewrite Hsec2, Hv, generateSecretObj_name.
    apply String.eqb_neq in Hne. rewrite Hne. cbn [andb].
    rewrite Hsec1, Hv, generateSecretObj_name, String.eqb_refl. reflexivity.
  - destruct (Hsome1 _ Hv) as [refs Hrefs]. exists refs.
    split; [exact Hrefs |].
    split; [rewrite Hsa2, Hv, Hsa1, Hv, Hrefs; reflexivity |].
    split.
    + etransitivity; apply setImagePullSecret_prefix.
    + intros name. apply countImagePullSecrets_set_twice.
Qed.

Lemma process_success_witness :
  let run := process Sample.good defaultFlags (Sample.world Sample.teamA) in
  secrets (cluster run.2) !! ("team-a", "awsecr-cred")
  = Some (generateSecretObj "ecr-token" "https://ecr.example" true "awsecr-cred")
  ∧ secrets (cluster run.2) !! ("team-a", "gcr-secret")
    = Some (generateSecretObj "gcr-token" "https://gcr.io" false "gcr-secret")
  ∧ serviceAccounts (cluster run.2) !! ("team-a", "default")
    = Some [ {| ref_Name := "other-reg" |}; {| ref_Name := "gcr-secret" |};
             {| ref_Name := "awsecr-cred" |} ].
Proof.
  cbv zeta. set (w := Sample.world Sample.teamA).
  destruct (process_success Sample.good defaultFlags w (process Sample.good defaultFlags w).2)
    as (gcrToken & ecrToken & Hgcr & Hecr & Hall); [vm_compute; reflexivity |].
  vm_compute in Hgcr. injection Hgcr as <-.
  vm_compute in Hecr. injection Hecr as <-.
  destruct (Hall {| ns_Name := "team-a" |}) as (Haws & Hgcr & refs & Hrefs & Hlist & _).
  - right. left.
  - discriminate.
  - split; [exact Haws |]. split; [apply Hgcr; discriminate |].
    assert (refs = [ {| ref_Name := "other-reg" |} ]) as ->
      by (vm_compute in Hrefs; congruence).
    exact Hlist.
Defined.

(** C3 does not hold as it is stated.  A default account that lists
    [gcr-secret] twice lists it twice after a run that succeeds: the loop
    breaks at the first entry with the name.  And when one name is
    configured for both secrets, the secret of that name is the ECR one
    after the run, not the one made of the GCR token. *)
Lemma process_success_claim_fails :
  let run := process Sample.good defaultFlags (Sample.world Sample.twice) in
  let run' := process Sample.good Sample.oneName (Sample.world Sample.teamA) in
  run.1 = Ok tt
  ∧ serviceAccounts (cluster run.2) !! ("team-b", "default")
    = Some [ {| ref_Name := "gcr-secret" |}; {| ref_Name := "gcr-secret" |};
             {| ref_Name := "awsecr-cred" |} ]
  ∧ countImagePullSecrets "gcr-secret"
      [ {| ref_Name := "gcr-secret" |}; {| ref_Name := "gcr-secret" |};
        {| ref_Name := "awsecr-cred" |} ] = 2
  ∧ run'.1 = Ok tt
  ∧ secrets (cluster run'.2) !! ("team-a", "regcred")
    = Some (generateSecretObj "ecr-token" "https://ecr.example" true "regcred")
  ∧ generateSecretObj "ecr-token" "https://ecr.example" true "regcred"
    ≠ generateSecretObj "gcr-token" "https://gcr.io" false "regcred".
Proof.
  vm_compute. repeat split; try reflexivity. discriminate.
Qed.

(** * Further properties of the code *)

(** ** Panics *)

Lemma neverPanics_ret {A} (a : A) : neverPanics (ret a).
Proof. intros w p. discriminate. Qed.

Lemma neverPanics_fail {A} (e : error) : neverPanics (@fail A e).
Proof. intros w p. discriminate. Qed.

Lemma neverPanics_bind {A B} (m : M A) (k : A → M B) :
  neverPanics m → (∀ a, neverPanics (k a)) → neverPanics (bind m k).
Proof.
  intros Hm Hk w p. unfold bind. specialize (Hm w).
  destruct (m w) as [[a|e|q] w1]; simpl in *.
  - apply Hk.
  - discriminate.
  - exfalso. exact (Hm q eq_refl).
Qed.

Lemma neverPanics_attempt {A} (m : M A) : neverPanics m → neverPanics (attempt m).
Proof.
  intros Hm w p. unfold attempt. specialize (Hm w).
  destruct (m w) as [[a|e|q] w1]; simpl in *; try discriminate.
  exfalso. exact (Hm q eq_refl).
Qed.

Lemma neverPanics_forEach {A} (l : list A) (body : A → M unit) :
  (∀ x, neverPanics (body x)) → neverPanics (forEach l body).
Proof.
  intros Hbody. induction l as [|x l IH]; simpl.
  - apply neverPanics_ret.
  - apply neverPanics_bind; [apply Hbody | intros _; exact IH].
Qed.

Lemma neverPanics_request (kube : kubeInterface) (call : ApiCall) :
  neverPanics (request kube call).
Proof.
  intros w p Hp. destruct (request_spec kube call w) as (_ & _ & _ & _ & _ & H).
  rewrite Hp in H. exact H.
Qed.

Lemma neverPanics_log_Print (line : string) : neverPanics (log_Print line).
Proof. intros w p. discriminate. Qed.

Ltac neverPanics_structure :=
  repeat match goal with
    | |- neverPanics (bind _ _) => apply neverPanics_bind; [| intros ?]
    | |- neverPanics (attempt _) => apply neverPanics_attempt
    | |- neverPanics (ret _) => apply neverPanics_ret
    | |- neverPanics (fail _) => apply neverPanics_fail
    | |- neverPanics (log_Print _) => apply neverPanics_log_Print
    | |- neverPanics (request _ _) => apply neverPanics_request
    | |- neverPanics (match ?x with _ => _ end) => destruct x
    end.

Lemma getGCRAuthorizationKey_neverPanics (c : controller) (fl : Flags) :
  neverPanics (getGCRAuthorizationKey c fl).
Proof.
  unfold getGCRAuthorizationKey, ts_Token. neverPanics_structure.
  intros w p. unfold gcr_DefaultTokenSource.
  destruct (DefaultTokenSource _ _ _); discriminate.
Qed.

Lemma processNamespace_neverPanics (kube : kubeInterface) (secretName : string)
    (newSecret : Secret) (namespace : Namespace) :
  neverPanics (processNamespace kube secretName newSecret namespace).
Proof.
  unfold processNamespace, reconcileNamespace, reconcileSecret, reconcileServiceAccount,
    Secrets_Get, Secrets_Create, Secrets_Update, ServiceAccounts_Get,
    ServiceAccounts_Update.
  destruct (String.eqb (GetName namespace) "kube-system"); neverPanics_structure.
Qed.

(** The GCR generator never panics: whatever the clients answer, it ends
    with success or with an error. *)
Lemma gcrGenerator_neverPanics (c : controller) (fl : Flags) :
  neverPanics (processGenerator c (gcrGenerator c fl)).
Proof.
  unfold processGenerator, Namespaces_List. simpl. neverPanics_structure.
  - apply getGCRAuthorizationKey_neverPanics.
  - apply neverPanics_forEach. intros namespace. apply processNamespace_neverPanics.
Qed.

(** ** What the steps after the fetch keep *)

Section GeneratorKeeps.

Variable R : World → World → Prop.
Hypothesis R_refl : ∀ w, R w w.
Hypothesis R_trans : ∀ w1 w2 w3, R w1 w2 → R w2 w3 → R w1 w3.
Hypothesis R_request : ∀ kube call, keeps R (request kube call).

Lemma processNamespace_keeps (kube : kubeInterface) (secretName : string)
    (newSecret : Secret) (namespace : Namespace) :
  keeps R (processNamespace kube secretName newSecret namespace).
Proof.
  unfold processNamespace, reconcileNamespace, reconcileSecret, reconcileServiceAccount,
    Secrets_Get, Secrets_Create, Secrets_Update, ServiceAccounts_Get,
    ServiceAccounts_Update.
  destruct (String.eqb (GetName namespace) "kube-system");
    keeps_structure R_refl R_trans; apply R_request.
Qed.

(** The list of the namespaces and the loop over them. *)
Lemma namespaces_loop_keeps (kube : kubeInterface) (secretName : string)
    (newSecret : Secret) :
  keeps R (namespaces <~ Namespaces_List kube;
           forEach namespaces (processNamespace kube secretName newSecret)).
Proof.
  unfold Namespaces_List. keeps_structure R_refl R_trans.
  - apply R_request.
  - apply keeps_forEach; [exact R_refl | exact R_trans |].
    intros namespace _. apply processNamespace_keeps.
Qed.

End GeneratorKeeps.

Lemma sameGcrCalls_refl (w : World) : sameGcrCalls w w.
Proof. reflexivity. Qed.

Lemma sameGcrCalls_trans (w1 w2 w3 : World) :
  sameGcrCalls w1 w2 → sameGcrCalls w2 w3 → sameGcrCalls w1 w3.
Proof. unfold sameGcrCalls. congruence. Qed.

Lemma request_sameGcrCalls (kube : kubeInterface) (call : ApiCall) :
  keeps sameGcrCalls (request kube call).
Proof. intros w. apply (request_spec kube call w). Qed.

Lemma getGCRAuthorizationKey_calls (c : controller) (fl : Flags) (w : World) :
  gcrCalls (getGCRAuthorizationKey c fl w).2 = S (gcrCalls w)
  ∧ ecrCalls (getGCRAuthorizationKey c fl w).2 = ecrCalls w.
Proof.
  unfold getGCRAuthorizationKey, bind, attempt, gcr_DefaultTokenSource, ts_Token.
  destruct (DefaultTokenSource _ _ _) as [e|[[e|token]]]; simpl;
    try (split; reflexivity).
  destruct (oauth2.Valid token); simpl; [| split; reflexivity].
  destruct (String.eqb (oauth2.Type_ token) "Bearer"); split; reflexivity.
Qed.

Lemma getECRAuthorizationKey_calls (c : controller) (fl : Flags) (w : World) :
  ecrCalls (getECRAuthorizationKey c fl w).2 = S (ecrCalls w)
  ∧ gcrCalls (getECRAuthorizationKey c fl w).2 = gcrCalls w.
Proof.
  unfold getECRAuthorizationKey, bind, attempt, ecr_GetAuthorizationToken.
  destruct (GetAuthorizationToken _ _ _) as [e|[entries]]; simpl;
    [split; reflexivity |].
  destruct entries as [|[[[accessToken|] [endpoint|]]|] rest]; split; reflexivity.
Qed.

(** A generator, by the outcome and the world of its fetch. *)
Lemma processGenerator_unfold (c : controller) (g : SecretGenerator) (w : World) :
  processGenerator c g w
  = match TokenGenFxn g w with
    | (Ok newToken, w1) =>
        ((namespaces <~ Namespaces_List (kubeClient c);
          forEach namespaces
            (processNamespace (kubeClient c) (SecretName g)
               (generateSecretObj (AccessToken newToken) (Endpoint newToken)
                  (IsJSONCfg g) (SecretName g))));;
         log_Print ("Finished processing secret for: " +:+ SecretName g)) w1
    | (Err e, w1) => (Err e, w1)
    | (Panicked p, w1) => (Panicked p, w1)
    end.
Proof.
  unfold processGenerator. unfold bind at 1.
  destruct (TokenGenFxn g w) as [[newToken|e|p] w1]; try reflexivity.
  unfold bind. destruct (Namespaces_List (kubeClient c) w1) as [[items|e|p] w2]; reflexivity.
Qed.

Lemma processGenerator_counts (c : controller) (g : SecretGenerator) (w : World) :
  gcrCalls (processGenerator c g w).2 = gcrCalls (TokenGenFxn g w).2
  ∧ ecrCalls (processGenerator c g w).2 = ecrCalls (TokenGenFxn g w).2.
Proof.
  rewrite processGenerator_unfold.
  destruct (TokenGenFxn g w) as [[newToken|e|p] w1]; try (split; reflexivity).
  cbn [snd]. unfold bind at 1 3.
  match goal with |- context [bind ?m ?k w1] =>
    pose proof (namespaces_loop_keeps sameGcrCalls sameGcrCalls_refl sameGcrCalls_trans
                  request_sameGcrCalls (kubeClient c) (SecretName g)
                  (generateSecretObj (AccessToken newToken) (Endpoint newToken)
                     (IsJSONCfg g) (SecretName g)) w1) as Hgcr;
    pose proof (namespaces_loop_keeps sameEcrCalls sameEcrCalls_refl sameEcrCalls_trans
                  request_sameEcrCalls (kubeClient c) (SecretName g)
                  (generateSecretObj (AccessToken newToken) (Endpoint newToken)
                     (IsJSONCfg g) (SecretName g)) w1) as Hecr;
    destruct (bind m k w1) as [[u|e|p] w2]
  end; split; first [exact Hgcr | exact Hecr].
Qed.

(** ** The fetches of a run *)

(** A run, by the outcomes of its two generators. *)
Lemma process_unfold (c : controller) (fl : Flags) (w : World) :
  process c fl w
  = match processGenerator c (gcrGenerator c fl)
            (addLog "Processing Credentials..." w) with
    | (Ok _, w1) =>
        match processGenerator c (ecrGenerator c fl) w1 with
        | (Ok _, w2) => (Ok tt, w2)
        | (Err e, w2) => (Err e, w2)
        | (Panicked p, w2) => (Panicked p, w2)
        end
    | (Err e, w1) => (Err e, w1)
    | (Panicked p, w1) => (Panicked p, w1)
    end.
Proof.
  unfold process. rewrite secretGenerators_eq. cbn [forEach].
  unfold bind, log_Print, ret.
  destruct (processGenerator c (gcrGenerator c fl) _) as [[u|e|p] w1]; reflexivity.
Qed.

Lemma process_counts (c : controller) (fl : Flags) (w : World) :
  gcrCalls (process c fl w).2 = S (gcrCalls w)
  ∧ ecrCalls (process c fl w).2
    = match (processGenerator c (gcrGenerator c fl)
               (addLog "Processing Credentials..." w)).1 with
      | Ok _ => S (ecrCalls w)
      | _ => ecrCalls w
      end
  ∧ ((process c fl w).1 = Ok tt → ecrCalls (process c fl w).2 = S (ecrCalls w)).
Proof.
  rewrite process_unfold. set (w0 := addLog "Processing Credentials..." w).
  destruct (processGenerator_counts c (gcrGenerator c fl) w0) as [Hg1 He1].
  destruct (getGCRAuthorizationKey_calls c fl w0) as [Hg0 He0].
  cbn [gcrGenerator TokenGenFxn] in Hg1, He1. rewrite Hg0 in Hg1. rewrite He0 in He1.
  change (gcrCalls w0) with (gcrCalls w) in Hg1. change (ecrCalls w0) with (ecrCalls w) in He1.
  destruct (processGenerator c (gcrGenerator c fl) w0) as [[u|e|p] w1]; cbn [fst snd] in *;
    [| repeat split; [exact Hg1 | exact He1 | discriminate]
     | repeat split; [exact Hg1 | exact He1 | discriminate]].
  destruct (processGenerator_counts c (ecrGenerator c fl) w1) as [Hg2 He2].
  destruct (getECRAuthorizationKey_calls c fl w1) as [He3 Hg3].
  cbn [ecrGenerator TokenGenFxn] in Hg2, He2. rewrite Hg3 in Hg2. rewrite He3 in He2.
  destruct (processGenerator c (ecrGenerator c fl) w1) as [[u'|e|p] w2]; cbn [fst snd] in *;
    repeat split; congruence.
Qed.

Lemma serveTicks_gcrCalls (c : controller) (fl : Flags) (ticks : nat) (w wk : World) :
  serveTicks c fl ticks w = (Waiting, wk) → gcrCalls wk = gcrCalls w + ticks.
Proof.
  revert w. induction ticks as [|ticks IH]; intros w H; simpl in H.
  - injection H as <-. lia.
  - destruct (process_counts c fl (addLog "Refreshing credentials..." w)) as (Hgcr & _).
    destruct (process c fl (addLog "Refreshing credentials..." w)) as [[u|e|p] w1];
      try discriminate H.
    apply IH in H. cbn [snd addLog gcrCalls] in Hgcr. lia.
Qed.

Lemma startup_gcrCalls (fl : Flags) (w : World) : gcrCalls (startup fl w).2 = gcrCalls w.
Proof.
  unfold startup, bind, log_Print. destruct (String.eqb (awsAccountID fl) ""); reflexivity.
Qed.

(** X1.  No token is kept from one run to the next.  Every run, whatever
    its outcome, calls the GCR token source exactly once, and ECR at most
    once: once when it succeeds, and not at all when the GCR generator
    did not go through.  So a process that is still waiting after a number
    of ticks has asked GCR once more than that number. *)
Theorem process_fetches_every_run (c : controller) (fl : Flags) (w : World) :
  gcrCalls (process c fl w).2 = S (gcrCalls w)
  ∧ (ecrCalls w ≤ ecrCalls (process c fl w).2 ≤ S (ecrCalls w))%nat
  ∧ ((process c fl w).1 = Ok tt → ecrCalls (process c fl w).2 = S (ecrCalls w))
  ∧ ((processGenerator c (gcrGenerator c fl)
        (addLog "Processing Credentials..." w)).1 ≠ Ok tt →
     ecrCalls (process c fl w).2 = ecrCalls w)
  ∧ ∀ ticks wk,
      main c fl ticks w = (Waiting, wk) → gcrCalls wk = gcrCalls w + S ticks.
Proof.
  destruct (process_counts c fl w) as (Hgcr & Hecr & Hok).
  split; [exact Hgcr |]. split; [| split; [exact Hok | split]].
  - rewrite Hecr. destruct (processGenerator _ _ _).1; lia.
  - intros Hnot. rewrite Hecr.
    destruct (processGenerator _ _ _).1 as [[]|e|p]; [contradiction | reflexivity..].
  - intros ticks wk Hmain. rewrite main_unfold in Hmain.
    destruct (process_counts c fl (startup fl w).2) as (Hgcr0 & _).
    rewrite startup_gcrCalls in Hgcr0.
    destruct (process c fl (startup fl w).2) as [[u|e|p] w1]; try discriminate Hmain;
      apply serveTicks_gcrCalls in Hmain; cbn [snd] in Hgcr0; lia.
Qed.

Lemma process_fetches_every_run_witness :
  gcrCalls (main Sample.good defaultFlags 3 (Sample.world Sample.teamA)).2 = 4
  ∧ ecrCalls (process Sample.good defaultFlags (Sample.world Sample.teamA)).2 = 1.
Proof.
  destruct (process_fetches_every_run Sample.good defaultFlags (Sample.world Sample.teamA))
    as (_ & _ & Hecr & _ & Hmain).
  split.
  - apply (Hmain 3). vm_compute. reflexivity.
  - apply Hecr. vm_compute. reflexivity.
Defined.

(** ** A deployment without ECR *)

Lemma process_fails_without_ecr (c : controller) (fl : Flags) :
  (∀ n input, ∃ e, GetAuthorizationToken (ecrClient c) n input = inl e) →
  ∀ w, ∃ e w', process c fl w = (Err e, w').
Proof.
  intros Hecr w. rewrite process_unfold.
  set (w0 := addLog "Processing Credentials..." w).
  destruct (processGenerator c (gcrGenerator c fl) w0) as [[u|e|p] w1] eqn:Hgcr.
  - destruct (Hecr (ecrCalls w1) {| ecr.RegistryIds := [awsAccountID fl] |}) as [e He].
    rewrite processGenerator_unfold. cbn [ecrGenerator TokenGenFxn].
    rewrite (getECRAuthorizationKey_error c fl w1 e He). eauto.
  - eauto.
  - exfalso. apply (gcrGenerator_neverPanics c fl w0 p). rewrite Hgcr. reflexivity.
Qed.

(** X2.  With an ECR client that fails on every call (a deployment that
    only uses GCR, as the start-up message about the missing account
    puts it), no run succeeds.  The process stays up after the run at
    start-up, whose error is dropped, and exits with status 1 at the first
    tick, logging the error of that run. *)
Theorem main_exits_without_ecr (c : controller) (fl : Flags) (ticks : nat) (w : World) :
  (∀ n input, ∃ e, GetAuthorizationToken (ecrClient c) n input = inl e) →
  (main c fl 0 w).1 = Waiting
  ∧ ∃ e w',
      main c fl (S ticks) w
      = (Exited 1, addLog ("Failed to load ecr credentials: " +:+ Error e) w').
Proof.
  intros Hecr. rewrite !main_unfold.
  destruct (process_fails_without_ecr c fl Hecr (startup fl w).2) as (e0 & w1 & Hfirst).
  rewrite Hfirst. split; [reflexivity |].
  destruct (process_fails_without_ecr c fl Hecr (addLog "Refreshing credentials..." w1))
    as (e & w2 & Hsecond).
  exists e, w2. apply serveTicks_failure. exact Hsecond.
Qed.

Lemma main_exits_without_ecr_witness :
  (main Sample.ecrFailing defaultFlags 0 (Sample.world Sample.teamA)).1 = Waiting
  ∧ (main Sample.ecrFailing defaultFlags 2 (Sample.world Sample.teamA)).1 = Exited 1.
Proof.
  destruct (main_exits_without_ecr Sample.ecrFailing defaultFlags 1
              (Sample.world Sample.teamA)) as (H0 & e & w' & H2).
  - intros n input. exists (RemoteError "ecr unreachable"). reflexivity.
  - split; [exact H0 | rewrite H2; reflexivity].
Defined.

(** ** The reply of ECR and the panics of a run *)

(** X3.  On a reply without error the ECR provider never returns an error:
    it gives the pair of the first entry, or it panics, on the index 0 when
    the reply has no entry and on a nil pointer when the first entry, its
    token or its endpoint is nil.  In each case one call was made and
    nothing was printed or logged. *)
Theorem getECRAuthorizationKey_reply (c : controller) (fl : Flags) (w : World)
    (resp : ecr.GetAuthorizationTokenOutput) :
  GetAuthorizationToken (ecrClient c) (ecrCalls w) {| ecr.RegistryIds := [awsAccountID fl] |}
  = inr resp →
  getECRAuthorizationKey c fl w
  = (match ecr.AuthorizationData_ resp with
     | [] => Panicked (IndexOutOfRange 0 0)
     | Some {| ecr.AuthorizationToken := Some accessToken;
               ecr.ProxyEndpoint := Some endpoint |} :: _ =>
         Ok {| AccessToken := accessToken; Endpoint := endpoint |}
     | _ :: _ => Panicked NilDereference
     end,
     countEcr w).
Proof.
  intros Hreply. unfold getECRAuthorizationKey, bind, attempt, ecr_GetAuthorizationToken.
  rewrite Hreply. destruct resp as [entries].
  destruct entries as [|[[[accessToken|] [endpoint|]]|] rest]; reflexivity.
Qed.

Lemma getECRAuthorizationKey_reply_witness :
  (getECRAuthorizationKey Sample.ecrEmpty defaultFlags (Sample.world Sample.teamA)).1
  = Panicked (IndexOutOfRange 0 0).
Proof.
  rewrite (getECRAuthorizationKey_reply Sample.ecrEmpty defaultFlags
             (Sample.world Sample.teamA) {| ecr.AuthorizationData_ := [] |});
    reflexivity.
Defined.

Lemma namespaces_loop_neverPanics (kube : kubeInterface) (secretName : string)
    (newSecret : Secret) :
  neverPanics ((namespaces <~ Namespaces_List kube;
                forEach namespaces (processNamespace kube secretName newSecret));;
               log_Print ("Finished processing secret for: " +:+ secretName)).
Proof.
  unfold Namespaces_List. neverPanics_structure.
  apply neverPanics_forEach. intros namespace. apply processNamespace_neverPanics.
Qed.

(** A generator panics only in its fetch. *)
Lemma processGenerator_Panicked (c : controller) (g : SecretGenerator) (w w' : World)
    (p : panic) :
  processGenerator c g w = (Panicked p, w') → TokenGenFxn g w = (Panicked p, w').
Proof.
  rewrite processGenerator_unfold.
  destruct (TokenGenFxn g w) as [[newToken|e|q] w1]; intros H; try discriminate H.
  - exfalso.
    apply (namespaces_loop_neverPanics (kubeClient c) (SecretName g)
             (generateSecretObj (AccessToken newToken) (Endpoint newToken)
                (IsJSONCfg g) (SecretName g)) w1 p).
    rewrite H. reflexivity.
  - injection H as -> ->. reflexivity.
Qed.

(** X4.  A run panics only through the ECR provider: when it does, the GCR
    generator has gone through with success, and the panic is that of the
    ECR fetch, with the cluster as the GCR generator left it.  A panic
    brings the process down, in a scheduled run and also in the run at
    start-up, whose errors are dropped. *)
Theorem process_panics_only_in_ecr (c : controller) (fl : Flags) (w w' : World) (p : panic) :
  process c fl w = (Panicked p, w') →
  (∃ w1,
     processGenerator c (gcrGenerator c fl) (addLog "Processing Credentials..." w)
     = (Ok tt, w1)
     ∧ getECRAuthorizationKey c fl w1 = (Panicked p, w')
     ∧ cluster w' = cluster w1)
  ∧ (∀ ticks w0, (startup fl w0).2 = w → main c fl ticks w0 = (Crashed p, w'))
  ∧ (∀ ticks wk, w = addLog "Refreshing credentials..." wk →
                 serveTicks c fl (S ticks) wk = (Crashed p, w')).
Proof.
  intros Hrun. split; [| split].
  - rewrite process_unfold in Hrun.
    destruct (processGenerator c (gcrGenerator c fl) _) as [[[]|e|q] w1] eqn:Hgcr.
    + exists w1. split; [reflexivity |].
      destruct (processGenerator c (ecrGenerator c fl) w1) as [[u|e|q] w2] eqn:Hecr;
        try discriminate Hrun.
      injection Hrun as -> ->. apply processGenerator_Panicked in Hecr.
      split; [exact Hecr |].
      pose proof (getECRAuthorizationKey_quiet c fl w1) as [Hcluster _].
      cbn [ecrGenerator TokenGenFxn] in Hecr. rewrite Hecr in Hcluster. exact Hcluster.
    + discriminate Hrun.
    + exfalso.
      apply (gcrGenerator_neverPanics c fl (addLog "Processing Credentials..." w) q).
      rewrite Hgcr. reflexivity.
  - intros ticks w0 <-. rewrite main_unfold, Hrun. reflexivity.
  - intros ticks wk ->. simpl. rewrite Hrun. reflexivity.
Qed.

Lemma process_panics_only_in_ecr_witness :
  (main Sample.ecrEmpty defaultFlags 7 (Sample.world Sample.teamA)).1
  = Crashed (IndexOutOfRange 0 0).
Proof.
  set (w0 := Sample.world Sample.teamA).
  destruct (process_panics_only_in_ecr Sample.ecrEmpty defaultFlags
              (startup defaultFlags w0).2
              (process Sample.ecrEmpty defaultFlags (startup defaultFlags w0).2).2
              (IndexOutOfRange 0 0))
    as (_ & Hmain & _); [vm_compute; reflexivity |].
  rewrite (Hmain 7 w0 eq_refl). reflexivity.
Defined.

(** ** The checks of the GCR provider *)

Lemma Sprintf_other (ch : ascii) (rest : string) (args : list string) :
  Ascii.eqb ch "%"%char = false →
  Sprintf (String ch rest) args = String ch (Sprintf rest args).
Proof.
  destruct ch as [[] [] [] [] [] [] [] []]; intros H; try reflexivity; discriminate H.
Qed.

(** A format without verb is printed as it is. *)
Lemma Sprintf_percentFree (s : string) (args : list string) :
  percentFree s = true → Sprintf s args = s.
Proof.
  induction s as [|ch s IH]; [reflexivity |].
  cbn [percentFree]. intros H. apply andb_prop in H as [Hch Hs].
  apply negb_true_iff in Hch. rewrite (Sprintf_other _ _ _ Hch), (IH Hs). reflexivity.
Qed.

Lemma percentFree_app (a b : string) :
  percentFree (a +:+ b) = percentFree a && percentFree b.
Proof.
  induction a as [|ch a IH]; [reflexivity |].
  change (percentFree (String ch (a +:+ b))
          = percentFree (String ch a) && percentFree b).
  cbn [percentFree]. rewrite IH, andb_assoc. reflexivity.
Qed.

(** X5.  The checks of the GCR provider on the token it got, in their
    order.  A token that is not valid is refused with the error "token was
    invalid", whatever its type.  A valid token whose type is not exactly
    "Bearer" is refused with an error that names the type (for a type
    without percent sign, which the message is formatted a second time
    with).  A valid Bearer token is returned with the configured GCR URL
    as endpoint.  In each case the token source was called once and
    nothing was logged. *)
Theorem getGCRAuthorizationKey_checks (c : controller) (fl : Flags) (w : World)
    (ts : oauth2.TokenSource) (token : oauth2.Token) :
  DefaultTokenSource (gcrClient c) (gcrCalls w)
    ["https://www.googleapis.com/auth/cloud-platform"] = inr ts →
  oauth2.Token_ ts = inr token →
  (oauth2.Valid token = false →
   getGCRAuthorizationKey c fl w = (Err (ErrorString "token was invalid"), countGcr w))
  ∧ (oauth2.Valid token = true → oauth2.Type_ token ≠ "Bearer" →
     percentFree (oauth2.Type_ token) = true →
     getGCRAuthorizationKey c fl w
     = (Err (ErrorString ("expected token type " +:+ quoted "Bearer" +:+ " but got "
                            +:+ quoted (oauth2.Type_ token))),
        countGcr w))
  ∧ (oauth2.Valid token = true → oauth2.Type_ token = "Bearer" →
     getGCRAuthorizationKey c fl w
     = (Ok {| AccessToken := oauth2.AccessToken token; Endpoint := argGCRURL fl |},
        countGcr w)).
Proof.
  intros Hsource Htoken.
  unfold getGCRAuthorizationKey, bind, attempt, gcr_DefaultTokenSource, ts_Token.
  rewrite Hsource, Htoken. cbn [fail ret].
  split; [| split].
  - intros ->. reflexivity.
  - intros -> Htype Hfree. apply String.eqb_neq in Htype. rewrite Htype. cbn [negb].
    unfold fail, Errorf. do 3 f_equal.
    change (Sprintf ("expected token type " +:+ quoted "Bearer" +:+ " but got "
                       +:+ quoted "%s") [oauth2.Type_ token])
      with ("expected token type " +:+ quoted "Bearer" +:+ " but got "
              +:+ quoted (oauth2.Type_ token)).
    apply Sprintf_percentFree. unfold quoted. rewrite !percentFree_app, Hfree. reflexivity.
  - intros -> ->. reflexivity.
Qed.

(** With a verb in the type the second formatting shows. *)
Example getGCRAuthorizationKey_type_with_verb :
  (getGCRAuthorizationKey (Sample.gcrWith "t" "%v" true) defaultFlags
     (Sample.world Sample.teamA)).1
  = Err (ErrorString ("expected token type " +:+ quoted "Bearer" +:+ " but got "
                        +:+ quoted "%!v(MISSING)")).
Proof. reflexivity. Qed.

Lemma getGCRAuthorizationKey_checks_witness :
  (getGCRAuthorizationKey (Sample.gcrWith "t" "MAC" true) defaultFlags
     (Sample.world Sample.teamA)).1
  = Err (ErrorString ("expected token type " +:+ quoted "Bearer" +:+ " but got "
                        +:+ quoted "MAC"))
  ∧ (getGCRAuthorizationKey (Sample.gcrWith "t" "MAC" false) defaultFlags
       (Sample.world Sample.teamA)).1
    = Err (ErrorString "token was invalid").
Proof.
  split.
  - destruct (getGCRAuthorizationKey_checks (Sample.gcrWith "t" "MAC" true) defaultFlags
                (Sample.world Sample.teamA)
                {| oauth2.Token_ := inr {| oauth2.AccessToken := "t"; oauth2.Valid := true;
                                           oauth2.Type_ := "MAC" |} |}
                {| oauth2.AccessToken := "t"; oauth2.Valid := true; oauth2.Type_ := "MAC" |}
                eq_refl eq_refl) as (_ & Htype & _).
    rewrite Htype; [reflexivity | reflexivity | discriminate | reflexivity].
  - destruct (getGCRAuthorizationKey_checks (Sample.gcrWith "t" "MAC" false) defaultFlags
                (Sample.world Sample.teamA)
                {| oauth2.Token_ := inr {| oauth2.AccessToken := "t"; oauth2.Valid := false;
                                           oauth2.Type_ := "MAC" |} |}
                {| oauth2.AccessToken := "t"; oauth2.Valid := false; oauth2.Type_ := "MAC" |}
                eq_refl eq_refl) as (Hinvalid & _).
    rewrite Hinvalid; reflexivity.
Defined.

(** ** Reading the token back from the secret *)

Lemma length_append (a b : string) :
  String.length (a +:+ b) = String.length a + String.length b.
Proof.
  induction a as [|ch a IH]; [reflexivity |].
  change (S (String.length (a +:+ b)) = S (String.length a + String.length b)).
  rewrite IH. reflexivity.
Qed.

Lemma append_cancel_l (a x y : string) : a +:+ x = a +:+ y → x = y.
Proof.
  induction a as [|ch a IH]; intros H; [exact H |].
  change (String ch (a +:+ x) = String ch (a +:+ y)) in H.
  injection H as H. exact (IH H).
Qed.

Lemma append_cancel_r (a b s : string) : a +:+ s = b +:+ s → a = b.
Proof.
  revert b. induction a as [|ch a IH]; intros [|ch' b] H.
  - reflexivity.
  - apply (f_equal String.length) in H. rewrite !length_append in H. simpl in H. lia.
  - apply (f_equal String.length) in H. rewrite !length_append in H. simpl in H. lia.
  - change (String ch (a +:+ s) = String ch' (b +:+ s)) in H.
    injection H as -> H. rewrite (IH b H). reflexivity.
Qed.

(** Two strings without quote, each followed by a quote: the first quote
    tells where they end. *)
Lemma quoteFree_split (a b r r' : string) :
  quoteFree a = true → quoteFree b = true →
  a +:+ String "034"%char r = b +:+ String "034"%char r' →
  a = b ∧ r = r'.
Proof.
  revert b. induction a as [|ch a IH]; intros [|ch' b] Ha Hb H.
  - change (String "034"%char r = String "034"%char r') in H. injection H as ->.
    split; reflexivity.
  - change (String "034"%char r = String ch' (b +:+ String "034"%char r')) in H.
    injection H as <- _. discriminate Hb.
  - change (String ch (a +:+ String "034"%char r) = String "034"%char r') in H.
    injection H as -> _. discriminate Ha.
  - change (String ch (a +:+ String "034"%char r)
            = String ch' (b +:+ String "034"%char r')) in H.
    injection H as -> H. cbn [quoteFree] in Ha, Hb.
    apply andb_prop in Ha as [_ Ha]. apply andb_prop in Hb as [_ Hb].
    destruct (IH b Ha Hb H) as [-> ->]. split; reflexivity.
Qed.

Lemma list_byte_of_string_inj (a b : string) :
  list_byte_of_string a = list_byte_of_string b → a = b.
Proof.
  intros H. rewrite <- (string_of_list_byte_of_string a), <- (string_of_list_byte_of_string b).
  rewrite H. reflexivity.
Qed.

Lemma payload_shape (token endpoint : string) (isJSONCfg : bool) :
  payload token endpoint isJSONCfg
  = opening isJSONCfg
      +:+ (endpoint +:+ (separator isJSONCfg +:+ (token +:+ closing isJSONCfg))).
Proof. destruct isJSONCfg; reflexivity. Qed.

Lemma generateSecretObj_payload (token endpoint : string) (isJSONCfg : bool)
    (secretName : string) :
  secret_Data (generateSecretObj token endpoint isJSONCfg secretName)
  = {[ (if isJSONCfg then ".dockerconfigjson" else ".dockercfg")
       := list_byte_of_string (payload token endpoint isJSONCfg) ]}.
Proof. destruct isJSONCfg; reflexivity. Qed.

Lemma separator_quote (isJSONCfg : bool) :
  ∃ rest, separator isJSONCfg = String "034"%char rest.
Proof. destruct isJSONCfg; eexists; reflexivity. Qed.

(** X6.  The secret tells the token and the endpoint it was made of, when
    the endpoints have no double quote in them (a registry URL has none):
    two secrets of the same format with the same data were made of the
    same token and the same endpoint, whatever the tokens are. *)
Theorem generateSecretObj_injective (isJSONCfg : bool)
    (token1 endpoint1 name1 token2 endpoint2 name2 : string) :
  quoteFree endpoint1 = true →
  quoteFree endpoint2 = true →
  secret_Data (generateSecretObj token1 endpoint1 isJSONCfg name1)
  = secret_Data (generateSecretObj token2 endpoint2 isJSONCfg name2) →
  token1 = token2 ∧ endpoint1 = endpoint2.
Proof.
  intros Hq1 Hq2 H. rewrite !generateSecretObj_payload in H.
  apply (f_equal (λ m, m !! (if isJSONCfg then ".dockerconfigjson" else ".dockercfg"))) in H.
  rewrite !lookup_singleton_eq in H. injection H as H.
  apply list_byte_of_string_inj in H. rewrite !payload_shape in H.
  apply append_cancel_l in H.
  destruct (separator_quote isJSONCfg) as [rest Hsep]. rewrite Hsep in H.
  change (endpoint1 +:+ String "034"%char (rest +:+ (token1 +:+ closing isJSONCfg))
          = endpoint2 +:+ String "034"%char (rest +:+ (token2 +:+ closing isJSONCfg))) in H.
  apply quoteFree_split in H as [-> H]; [| assumption..].
  apply append_cancel_l, append_cancel_r in H. split; [exact H | reflexivity].
Qed.

Lemma generateSecretObj_injective_witness :
  "t" = "t" ∧ "https://gcr.io" = "https://gcr.io".
Proof.
  apply (generateSecretObj_injective false "t" "https://gcr.io" "gcr-secret"
           "t" "https://gcr.io" "other-name"); reflexivity.
Defined.

(** X7.  The token and the endpoint go into the payload as they are,
    without escaping.  So an endpoint with a double quote in it can give
    the secret of another pair: for all x, y and z, the endpoint x, the
    separator of the format, y with the token z, and the endpoint x with
    the token y, the separator, z, give the same secret. *)
Theorem generateSecretObj_no_escaping (isJSONCfg : bool) (x y z secretName : string) :
  generateSecretObj z (x +:+ separator isJSONCfg +:+ y) isJSONCfg secretName
  = generateSecretObj (y +:+ separator isJSONCfg +:+ z) x isJSONCfg secretName
  ∧ x +:+ separator isJSONCfg +:+ y ≠ x.
Proof.
  split.
  - assert (payload z (x +:+ separator isJSONCfg +:+ y) isJSONCfg
            = payload (y +:+ separator isJSONCfg +:+ z) x isJSONCfg) as Hpayload.
    { rewrite !payload_shape, !append_assoc. reflexivity. }
    unfold payload in Hpayload. unfold generateSecretObj.
    destruct isJSONCfg; rewrite Hpayload; reflexivity.
  - intros H. apply (f_equal String.length) in H. rewrite !length_append in H.
    destruct isJSONCfg; simpl in H; lia.
Qed.

(** ** The list of image pull secrets *)

(** X8.  What the scan with its break and the append come to.  If the list
    has an entry with the name it comes back unchanged (the entry written
    at the index found is the one that was there), and otherwise the name
    is added at the end; every entry keeps its place, and doing it a
    second time changes nothing. *)
Theorem setImagePullSecret_upsert (secretName : string) (l : list LocalObjectReference) :
  setImagePullSecret secretName l
  = (if hasImagePullSecret secretName l then l else l ++ [{| ref_Name := secretName |}])
  ∧ (∀ i r, l !! i = Some r → setImagePullSecret secretName l !! i = Some r)
  ∧ length (setImagePullSecret secretName l)
    = (if hasImagePullSecret secretName l then length l else S (length l))
  ∧ setImagePullSecret secretName (setImagePullSecret secretName l)
    = setImagePullSecret secretName l.
Proof.
  split; [apply setImagePullSecret_eq |]. split; [| split].
  - intros i r Hi. destruct (setImagePullSecret_prefix secretName l) as [k ->].
    apply lookup_app_l_Some. exact Hi.
  - rewrite setImagePullSecret_eq. destruct (hasImagePullSecret secretName l);
      [reflexivity |]. rewrite length_app. simpl. lia.
  - apply setImagePullSecret_idempotent.
Qed.

(** ** Failures of the requests *)

Lemma request_Err (kube : kubeInterface) (call : ApiCall) (w w' : World) (e : error) :
  request kube call w = (Err e, w') →
  w' = recordCall call w
  ∧ (apiFault kube (length (apiCalls w)) call = Some e
     ∨ (apiFault kube (length (apiCalls w)) call = None
        ∧ (serve call (cluster w)).1 = inl e)).
Proof.
  unfold request. destruct (apiFault kube (length (apiCalls w)) call) as [e0|].
  - intros [= -> <-]. split; [reflexivity | left; reflexivity].
  - destruct (serve call (cluster w)) as [[e0|reply] cl]; intros [= <- <-].
    split; [reflexivity | right; split; reflexivity].
Qed.

Lemma request_unit_Err (kube : kubeInterface) (call : ApiCall) (w w' : World) (e : error) :
  (request kube call;; ret tt) w = (Err e, w') → request kube call w = (Err e, w').
Proof.
  unfold bind, ret. destruct (request kube call w) as [[reply|e0|p] w1]; intros [= <- <-].
  reflexivity.
Qed.

(** X9.  If the list of the namespaces fails in a generator, the run
    returns that error with the list as only request of the generator: no
    namespace is visited, the cluster is as it was when the token was
    fetched, and the generators that follow are not run. *)
Theorem processGenerator_list_failure (c : controller) (fl : Flags)
    (done todo : list SecretGenerator) (g : SecretGenerator) (token : AuthToken)
    (w w1 wa : World) (e : error) :
  secretGenerators c fl = done ++ g :: todo →
  forEach done (processGenerator c) (addLog "Processing Credentials..." w) = (Ok tt, w1) →
  TokenGenFxn g w1 = (Ok token, wa) →
  apiFault (kubeClient c) (length (apiCalls wa)) NamespacesList = Some e →
  process c fl w = (Err e, recordCall NamespacesList wa)
  ∧ cluster (recordCall NamespacesList wa) = cluster w1
  ∧ apiCalls (recordCall NamespacesList wa) = apiCalls w1 ++ [NamespacesList].
Proof.
  intros Hgens Hdone Htoken Hfault.
  assert (quiet w1 wa) as [Hcluster Hcalls].
  { pose proof (TokenGenFxn_quiet c fl g) as Hquiet.
    rewrite Hgens in Hquiet. specialize (Hquiet ltac:(set_solver) w1).
    rewrite Htoken in Hquiet. exact Hquiet. }
  split; [| split].
  - unfold process, log_Print. unfold bind at 1. rewrite Hgens.
    apply (forEach_abort _ _ _ _ _ _ _ _ Hdone).
    rewrite processGenerator_unfold, Htoken.
    unfold Namespaces_List, bind, request. rewrite Hfault. reflexivity.
  - exact Hcluster.
  - simpl. rewrite Hcalls. reflexivity.
Qed.

Lemma processGenerator_list_failure_witness :
  let c := Sample.withKube Sample.listRefused in
  let run := process c defaultFlags (Sample.world Sample.teamA) in
  run.1 = Err (StatusFailure "connection refused")
  ∧ apiCalls run.2 = [NamespacesList]
  ∧ cluster run.2 = Sample.teamA.
Proof.
  cbv zeta. set (c := Sample.withKube Sample.listRefused).
  set (w := Sample.world Sample.teamA).
  set (w1 := addLog "Processing Credentials..." w).
  destruct (processGenerator_list_failure c defaultFlags [] [ecrGenerator c defaultFlags]
              (gcrGenerator c defaultFlags)
              {| AccessToken := "gcr-token"; Endpoint := "https://gcr.io" |}
              w w1 (getGCRAuthorizationKey c defaultFlags w1).2
              (StatusFailure "connection refused"))
    as (Hrun & Hcluster & Hcalls); [reflexivity.. |].
  rewrite Hrun. split; [reflexivity |]. split; [exact Hcalls | exact Hcluster].
Defined.

Lemma Secrets_Get_world (kube : kubeInterface) (namespace name : string) (w : World) :
  (Secrets_Get kube namespace name w).2 = recordCall (SecretsGet namespace name) w
  ∧ ∀ p, (Secrets_Get kube namespace name w).1 ≠ Panicked p.
Proof.
  unfold Secrets_Get, bind, request, ret.
  destruct (apiFault kube (length (apiCalls w)) (SecretsGet namespace name)); simpl.
  - split; [reflexivity | discriminate].
  - destruct (secrets (cluster w) !! (namespace, name)); simpl;
      (split; [reflexivity | discriminate]).
Qed.

Lemma length_recordCall (call : ApiCall) (w : World) :
  length (apiCalls (recordCall call w)) = S (length (apiCalls w)).
Proof. simpl. rewrite length_app. simpl. lia. Qed.

(** X10.  When the step for the secret returns an error, it is the error
    of the create or of the update, never that of the get, which is only
    used to choose between them.  The cluster is unchanged, the service
    account of the namespace is neither read nor written, and the loop
    over the namespaces stops there with that error. *)
Theorem reconcileSecret_failure (kube : kubeInterface) (secretName : string)
    (newSecret : Secret) (namespace : Namespace) (rest : list Namespace)
    (w w1 : World) (e : error) :
  GetName namespace ≠ "kube-system" →
  reconcileSecret kube (GetName namespace) secretName newSecret w = (Err e, w1) →
  ∃ write,
    (write = SecretsCreate (GetName namespace) newSecret
     ∨ write = SecretsUpdate (GetName namespace) newSecret)
    ∧ (apiFault kube (S (length (apiCalls w))) write = Some e
       ∨ (serve write (cluster w)).1 = inl e)
    ∧ cluster w1 = cluster w
    ∧ apiCalls w1 = apiCalls w ++ [SecretsGet (GetName namespace) secretName; write]
    ∧ forEach (namespace :: rest) (processNamespace kube secretName newSecret) w
      = (Err e, w1).
Proof.
  intros Hname Hsecret.
  assert (forEach (namespace :: rest) (processNamespace kube secretName newSecret) w
          = (Err e, w1)) as Hloop.
  { simpl. apply bind_of_Err. unfold processNamespace.
    apply String.eqb_neq in Hname. rewrite Hname.
    unfold reconcileNamespace. apply bind_of_Err. exact Hsecret. }
  unfold reconcileSecret, bind, attempt in Hsecret.
  destruct (Secrets_Get_world kube (GetName namespace) secretName w) as [Hworld Hpanic].
  destruct (Secrets_Get kube (GetName namespace) secretName w) as [[u|e0|p] w0];
    cbn [fst snd] in *; [| | exfalso; exact (Hpanic p eq_refl)]; subst w0;
    apply request_unit_Err, request_Err in Hsecret as [-> Hwhy];
    rewrite length_recordCall in Hwhy.
  - exists (SecretsUpdate (GetName namespace) newSecret).
    split; [right; reflexivity |]. split; [tauto |]. split; [reflexivity |].
    split; [simpl; rewrite <- app_assoc; reflexivity | exact Hloop].
  - exists (SecretsCreate (GetName namespace) newSecret).
    split; [left; reflexivity |]. split; [tauto |]. split; [reflexivity |].
    split; [simpl; rewrite <- app_assoc; reflexivity | exact Hloop].
Qed.

Lemma reconcileSecret_failure_witness :
  let kube := Sample.failsAt 1 in
  let newSecret := generateSecretObj "gcr-token" "https://gcr.io" false "gcr-secret" in
  let run :=
    forEach [ {| ns_Name := "team-a" |}; {| ns_Name := "team-c" |} ]
      (processNamespace kube "gcr-secret" newSecret) (Sample.world Sample.teamA) in
  run.1 = Err (StatusFailure "internal error")
  ∧ apiCalls run.2 = [SecretsGet "team-a" "gcr-secret"; SecretsCreate "team-a" newSecret].
Proof.
  cbv zeta.
  set (newSecret := generateSecretObj "gcr-token" "https://gcr.io" false "gcr-secret").
  set (w := Sample.world Sample.teamA).
  destruct (reconcileSecret_failure (Sample.failsAt 1) "gcr-secret" newSecret
              {| ns_Name := "team-a" |} [ {| ns_Name := "team-c" |} ] w
              (reconcileSecret (Sample.failsAt 1) "team-a" "gcr-secret" newSecret w).2
              (StatusFailure "internal error"))
    as (write & [-> | ->] & _ & _ & Hcalls & Hloop);
    [discriminate | vm_compute; reflexivity | |].
  - rewrite Hloop. split; [reflexivity | exact Hcalls].
  - exfalso. vm_compute in Hcalls. discriminate Hcalls.
Defined.

(** X11.  When the get of a secret that exists fails, the create that
    follows is refused by the cluster, and the step returns that refusal
    (already exists) instead of the error of the get; the secret in the
    cluster stays the old one. *)
Theorem reconcileSecret_masks_get_error (kube : kubeInterface)
    (namespace secretName : string) (newSecret old : Secret) (w : World) (e : error) :
  secrets (cluster w) !! (namespace, secret_Name newSecret) = Some old →
  apiFault kube (length (apiCalls w)) (SecretsGet namespace secretName) = Some e →
  apiFault kube (S (length (apiCalls w))) (SecretsCreate namespace newSecret) = None →
  reconcileSecret kube namespace secretName newSecret w
  = (Err (StatusAlreadyExists "secrets" (secret_Name newSecret)),
     recordCall (SecretsCreate namespace newSecret)
       (recordCall (SecretsGet namespace secretName) w))
  ∧ secrets (cluster (reconcileSecret kube namespace secretName newSecret w).2)
      !! (namespace, secret_Name newSecret) = Some old.
Proof.
  intros Hold Hget Hcreate.
  assert (reconcileSecret kube namespace secretName newSecret w
          = (Err (StatusAlreadyExists "secrets" (secret_Name newSecret)),
             recordCall (SecretsCreate namespace newSecret)
               (recordCall (SecretsGet namespace secretName) w))) as Hstep.
  { rewrite (reconcileSecret_get_error kube namespace secretName newSecret w e Hget).
    unfold Secrets_Create, bind, request. rewrite length_recordCall, Hcreate.
    cbn [serve recordCall cluster]. rewrite Hold. reflexivity. }
  split; [exact Hstep |]. rewrite Hstep. exact Hold.
Qed.

Lemma reconcileSecret_masks_get_error_witness :
  (reconcileSecret Sample.getTimesOut "team-a" "gcr-secret"
     (generateSecretObj "gcr-token" "https://gcr.io" false "gcr-secret")
     (Sample.world Sample.teamAStale)).1
  = Err (StatusAlreadyExists "secrets" "gcr-secret").
Proof.
  destruct (reconcileSecret_masks_get_error Sample.getTimesOut "team-a" "gcr-secret"
              (generateSecretObj "gcr-token" "https://gcr.io" false "gcr-secret")
              {| secret_Name := "gcr-secret"; secret_Data := ∅;
                 secret_Type := "kubernetes.io/dockercfg" |}
              (Sample.world Sample.teamAStale) (StatusFailure "request timed out"))
    as [Hstep _]; [vm_compute; reflexivity | reflexivity | reflexivity |].
  rewrite Hstep. reflexivity.
Defined.

(** ** When a run succeeds *)

Section Faultless.

Variable kube : kubeInterface.
Hypothesis faultless : ∀ n call, apiFault kube n call = None.

Lemma request_faultless (call : ApiCall) (w : World) :
  request kube call w
  = match serve call (cluster w) with
    | (inl e, _) => (Err e, recordCall call w)
    | (inr reply, cl) => (Ok reply, setCluster cl (recordCall call w))
    end.
Proof. unfold request. rewrite faultless. reflexivity. Qed.

Lemma reconcileSecret_succeeds (namespace secretName : string) (newSecret : Secret)
    (w : World) :
  secret_Name newSecret = secretName →
  ∃ w', reconcileSecret kube namespace secretName newSecret w = (Ok tt, w').
Proof.
  intros <-.
  unfold reconcileSecret, Secrets_Get, Secrets_Create, Secrets_Update, attempt.
  unfold bind at 1 2. rewrite request_faultless. cbn [serve].
  destruct (secrets (cluster w) !! (namespace, secret_Name newSecret)) as [old|] eqn:Hold;
    cbn [ret]; unfold bind; rewrite request_faultless; cbn [serve setCluster recordCall cluster];
    rewrite Hold; eexists; reflexivity.
Qed.

Lemma reconcileServiceAccount_succeeds (namespace secretName : string) (w : World) :
  is_Some (serviceAccounts (cluster w) !! (namespace, "default")) →
  ∃ w', reconcileServiceAccount kube namespace secretName w = (Ok tt, w').
Proof.
  intros [refs Hrefs].
  unfold reconcileServiceAccount, ServiceAccounts_Get, ServiceAccounts_Update.
  unfold bind at 1 2. rewrite request_faultless. cbn [serve]. rewrite Hrefs.
  cbn [ret]. unfold bind. rewrite request_faultless.
  cbn [serve setCluster recordCall cluster sa_Name]. rewrite Hrefs.
  eexists. reflexivity.
Qed.

Lemma reconcileNamespace_succeeds (namespace secretName : string) (newSecret : Secret)
    (w : World) :
  secret_Name newSecret = secretName →
  is_Some (serviceAccounts (cluster w) !! (namespace, "default")) →
  ∃ w', reconcileNamespace kube namespace secretName newSecret w = (Ok tt, w').
Proof.
  intros Hsame Haccount. unfold reconcileNamespace.
  destruct (reconcileSecret_succeeds namespace secretName newSecret w Hsame) as [w1 Hsecret].
  rewrite (bind_of_Ok _ _ _ _ _ Hsecret).
  apply reconcileServiceAccount_succeeds.
  apply reconcileSecret_Ok in Hsecret. rewrite Hsecret. exact Haccount.
Qed.

(** The loop goes through when every namespace it visits has a default
    service account. *)
Lemma forEach_processNamespace_succeeds (secretName : string) (newSecret : Secret)
    (items : list Namespace) (w : World) :
  secret_Name newSecret = secretName →
  (∀ namespace, namespace ∈ items → GetName namespace ≠ "kube-system" →
     is_Some (serviceAccounts (cluster w) !! (GetName namespace, "default"))) →
  ∃ w', forEach items (processNamespace kube secretName newSecret) w = (Ok tt, w').
Proof.
  intros Hsame. revert w. induction items as [|x items IH]; intros w Haccounts; simpl.
  - eexists. reflexivity.
  - unfold processNamespace at 1.
    destruct (String.eqb_spec (GetName x) "kube-system") as [Hskip|Hname].
    + rewrite (bind_of_Ok _ _ w tt w eq_refl). apply IH.
      intros namespace Hin. apply Haccounts. right. exact Hin.
    + destruct (reconcileNamespace_succeeds (GetName x) secretName newSecret w Hsame)
        as [w1 Hx].
      { apply Haccounts; [left | exact Hname]. }
      rewrite (bind_of_Ok _ _ _ _ _ Hx). apply IH.
      intros namespace Hin Hnamespace.
      apply reconcileNamespace_Ok in Hx as (refs & Hrefs & ->). simpl.
      rewrite lookup_insert. case_decide; [eexists; reflexivity |].
      apply Haccounts; [right; exact Hin | exact Hnamespace].
Qed.

End Faultless.

Lemma processGenerator_succeeds (c : controller) (fl : Flags) (g : SecretGenerator)
    (token : AuthToken) (w wa : World) :
  (∀ n call, apiFault (kubeClient c) n call = None) →
  g ∈ secretGenerators c fl →
  TokenGenFxn g w = (Ok token, wa) →
  (∀ namespace, namespace ∈ namespaces (cluster w) → GetName namespace ≠ "kube-system" →
     is_Some (serviceAccounts (cluster w) !! (GetName namespace, "default"))) →
  ∃ w', processGenerator c g w = (Ok tt, w').
Proof.
  intros Hkube Hg Htoken Haccounts.
  pose proof (TokenGenFxn_quiet c fl g Hg w) as [Hcluster _]. rewrite Htoken in Hcluster.
  cbn [snd] in Hcluster.
  rewrite processGenerator_unfold, Htoken.
  unfold Namespaces_List. unfold bind at 1 2 3. rewrite (request_faultless _ Hkube).
  cbn [serve ret].
  destruct (forEach_processNamespace_succeeds (kubeClient c) Hkube (SecretName g)
              (generateSecretObj (AccessToken token) (Endpoint token) (IsJSONCfg g)
                 (SecretName g))
              (namespaces (cluster wa))
              (setCluster (cluster wa) (recordCall NamespacesList wa)))
    as [w' Hloop].
  - apply generateSecretObj_name.
  - cbn [setCluster cluster]. rewrite Hcluster. exact Haccounts.
  - rewrite Hloop. unfold log_Print. eexists. reflexivity.
Qed.

(** A run that succeeds, as two passes over the namespaces. *)
Lemma process_Ok_passes (c : controller) (fl : Flags) (w w' : World) :
  process c fl w = (Ok tt, w') →
  ∃ gcrToken ecrToken w1,
    (getGCRAuthorizationKey c fl w).1 = Ok gcrToken
    ∧ (getECRAuthorizationKey c fl w).1 = Ok ecrToken
    ∧ processGenerator c (gcrGenerator c fl) (addLog "Processing Credentials..." w)
      = (Ok tt, w1)
    ∧ processGenerator c (ecrGenerator c fl) w1 = (Ok tt, w')
    ∧ passed (argGCRSecretName fl)
        (generateSecretObj (AccessToken gcrToken) (Endpoint gcrToken) false
           (argGCRSecretName fl))
        (cluster w) (cluster w1)
    ∧ passed (argAWSSecretName fl)
        (generateSecretObj (AccessToken ecrToken) (Endpoint ecrToken) true
           (argAWSSecretName fl))
        (cluster w1) (cluster w').
Proof.
  rewrite process_unfold. set (w0 := addLog "Processing Credentials..." w).
  destruct (processGenerator c (gcrGenerator c fl) w0) as [[[]|e|p] w1] eqn:Hgcr;
    [| discriminate..].
  destruct (processGenerator c (ecrGenerator c fl) w1) as [[[]|e|p] w2] eqn:Hecr;
    [| discriminate..].
  intros [= <-].
  pose proof (gcrGenerator_sameEcrCalls c fl w0) as Hcalls. rewrite Hgcr in Hcalls.
  unfold sameEcrCalls in Hcalls. cbn [snd] in Hcalls.
  pose proof Hgcr as Hgcr'. pose proof Hecr as Hecr'.
  apply (processGenerator_Ok c fl) in Hgcr' as (gcrToken & HgcrToken & Hpass1);
    [| rewrite secretGenerators_eq; set_solver].
  apply (processGenerator_Ok c fl) in Hecr' as (ecrToken & HecrToken & Hpass2);
    [| rewrite secretGenerators_eq; set_solver].
  cbn [gcrGenerator ecrGenerator TokenGenFxn IsJSONCfg SecretName] in *.
  exists gcrToken, ecrToken, w1.
  split; [rewrite <- HgcrToken; apply getGCRAuthorizationKey_fst; reflexivity |].
  split; [rewrite <- HecrToken; apply getECRAuthorizationKey_fst; symmetry; exact Hcalls |].
  split; [first [reflexivity | exact Hgcr] |].
  split; [first [reflexivity | exact Hecr] |]. split; [exact Hpass1 | exact Hpass2].
Qed.

(** X12.  When no request to the cluster fails and both providers give a
    token, the run succeeds exactly when every namespace of the cluster
    other than kube-system has a default service account. *)
Theorem process_succeeds_iff (c : controller) (fl : Flags) (w : World)
    (gcrToken ecrToken : AuthToken) :
  (∀ n call, apiFault (kubeClient c) n call = None) →
  (getGCRAuthorizationKey c fl w).1 = Ok gcrToken →
  (getECRAuthorizationKey c fl w).1 = Ok ecrToken →
  (process c fl w).1 = Ok tt
  ↔ ∀ namespace,
      namespace ∈ namespaces (cluster w) → GetName namespace ≠ "kube-system" →
      is_Some (serviceAccounts (cluster w) !! (GetName namespace, "default")).
Proof.
  intros Hkube HgcrToken HecrToken. split.
  - intros Hrun namespace Hin Hname.
    destruct (process c fl w) as [r w'] eqn:Hprocess. cbn [fst] in Hrun. subst r.
    apply process_Ok_passes in Hprocess as (? & ? & ? & _ & _ & _ & _ & Hpass & _).
    destruct Hpass as (_ & _ & _ & Hsome). apply Hsome.
    apply visits_elem_of; assumption.
  - intros Haccounts. rewrite process_unfold.
    set (w0 := addLog "Processing Credentials..." w).
    assert (gcrGenerator c fl ∈ secretGenerators c fl) as Hin1
      by (rewrite secretGenerators_eq; left).
    assert (ecrGenerator c fl ∈ secretGenerators c fl) as Hin2
      by (rewrite secretGenerators_eq; right; left).
    destruct (getGCRAuthorizationKey c fl w0) as [r wa] eqn:Hfetch1.
    assert (r = Ok gcrToken) as ->.
    { rewrite <- HgcrToken. change r with (r, wa).1. rewrite <- Hfetch1.
      apply getGCRAuthorizationKey_fst. reflexivity. }
    destruct (processGenerator_succeeds c fl (gcrGenerator c fl) gcrToken w0 wa
                Hkube Hin1 Hfetch1 Haccounts) as [w1 Hgcr].
    rewrite Hgcr.
    pose proof (gcrGenerator_sameEcrCalls c fl w0) as Hcalls. rewrite Hgcr in Hcalls.
    unfold sameEcrCalls in Hcalls. cbn [snd] in Hcalls.
    destruct (getECRAuthorizationKey c fl w1) as [r wb] eqn:Hfetch2.
    assert (r = Ok ecrToken) as ->.
    { rewrite <- HecrToken. change r with (r, wb).1. rewrite <- Hfetch2.
      apply getECRAuthorizationKey_fst. exact Hcalls. }
    destruct (processGenerator_succeeds c fl (ecrGenerator c fl) ecrToken w1 wb
                Hkube Hin2 Hfetch2) as [w2 Hecr].
    { apply (processGenerator_Ok c fl _ _ _ Hin1) in Hgcr as (? & _ & Hpass).
      destruct Hpass as (Hns & _ & Hsa & _). cbn [w0 addLog cluster] in Hns, Hsa.
      rewrite Hns. intros namespace Hin Hname. rewrite Hsa.
      rewrite (visits_elem_of _ _ Hin Hname), String.eqb_refl. cbn [andb].
      destruct (Haccounts namespace Hin Hname) as [refs ->]. eexists. reflexivity. }
    rewrite Hecr. reflexivity.
Qed.

Lemma process_succeeds_iff_witness :
  (process Sample.good defaultFlags (Sample.world Sample.teamA)).1 = Ok tt.
Proof.
  apply (process_succeeds_iff Sample.good defaultFlags (Sample.world Sample.teamA)
           {| AccessToken := "gcr-token"; Endpoint := "https://gcr.io" |}
           {| AccessToken := "ecr-token"; Endpoint := "https://ecr.example" |});
    [reflexivity.. |].
  intros namespace Hin Hname. simpl in Hin.
  apply elem_of_cons in Hin as [-> | Hin]; [contradiction Hname; reflexivity |].
  apply elem_of_cons in Hin as [-> | Hin]; [| apply elem_of_nil in Hin; contradiction].
  vm_compute. eexists. reflexivity.
Defined.

(** ** One run after another *)

Lemma setImagePullSecret_present (secretName : string) (l : list LocalObjectReference) :
  hasImagePullSecret secretName l = true → setImagePullSecret secretName l = l.
Proof. intros H. rewrite setImagePullSecret_eq, H. reflexivity. Qed.

Lemma hasImagePullSecret_kept (secretName other : string) (l : list LocalObjectReference) :
  hasImagePullSecret secretName l = true →
  hasImagePullSecret secretName (setImagePullSecret other l) = true.
Proof.
  intros H. rewrite setImagePullSecret_eq. destruct (hasImagePullSecret other l);
    [exact H |]. rewrite hasImagePullSecret_app, H. reflexivity.
Qed.

Lemma setImagePullSecret_both_again (gcrName awsName : string)
    (l : list LocalObjectReference) :
  setImagePullSecret awsName
    (setImagePullSecret gcrName
       (setImagePullSecret awsName (setImagePullSecret gcrName l)))
  = setImagePullSecret awsName (setImagePullSecret gcrName l).
Proof.
  rewrite (setImagePullSecret_present gcrName
             (setImagePullSecret awsName (setImagePullSecret gcrName l))).
  - apply setImagePullSecret_idempotent.
  - apply hasImagePullSecret_kept, hasImagePullSecret_set.
Qed.

Lemma Cluster_eq (cl cl' : Cluster) :
  namespaces cl = namespaces cl' →
  (∀ key, secrets cl !! key = secrets cl' !! key) →
  (∀ key, serviceAccounts cl !! key = serviceAccounts cl' !! key) →
  cl = cl'.
Proof.
  destruct cl, cl'. simpl. intros -> Hsecrets Haccounts.
  apply map_eq in Hsecrets. apply map_eq in Haccounts. subst. reflexivity.
Qed.

(** X13.  Of two runs that succeed one after the other, the second leaves
    the namespaces and every service account as the first left them: no
    list of image pull secrets grows from one tick to the next.  When the
    providers give the second run the tokens they gave the first, the
    second run leaves the whole cluster unchanged. *)
Theorem process_twice (c : controller) (fl : Flags) (w w1 w2 : World) :
  process c fl w = (Ok tt, w1) →
  process c fl w1 = (Ok tt, w2) →
  namespaces (cluster w2) = namespaces (cluster w1)
  ∧ serviceAccounts (cluster w2) = serviceAccounts (cluster w1)
  ∧ ((getGCRAuthorizationKey c fl w1).1 = (getGCRAuthorizationKey c fl w).1 →
     (getECRAuthorizationKey c fl w1).1 = (getECRAuthorizationKey c fl w).1 →
     cluster w2 = cluster w1).
Proof.
  intros Hfirst Hsecond.
  apply process_Ok_passes in Hfirst
    as (gcrToken & ecrToken & wa & HgcrToken & HecrToken & _ & _ & Hp1 & Hp2).
  apply process_Ok_passes in Hsecond
    as (gcrToken' & ecrToken' & wb & HgcrToken' & HecrToken' & _ & _ & Hp3 & Hp4).
  destruct Hp1 as (Hns1 & Hsec1 & Hsa1 & _), Hp2 as (Hns2 & Hsec2 & Hsa2 & _).
  destruct Hp3 as (Hns3 & Hsec3 & Hsa3 & _), Hp4 as (Hns4 & Hsec4 & Hsa4 & _).
  rewrite Hns1 in Hns2, Hsec2, Hsa2. rewrite Hns2 in Hns3, Hsec3, Hsa3.
  rewrite Hns3 in Hns4, Hsec4, Hsa4.
  assert (∀ key, serviceAccounts (cluster w2) !! key = serviceAccounts (cluster w1) !! key)
    as Haccounts.
  { intros [ns n]. rewrite Hsa4, Hsa3, Hsa2, Hsa1.
    destruct (visits (namespaces (cluster w)) ns && String.eqb n "default");
      [| reflexivity].
    destruct (serviceAccounts (cluster w) !! (ns, n)) as [refs|]; [| reflexivity].
    simpl. rewrite setImagePullSecret_both_again. reflexivity. }
  assert (namespaces (cluster w2) = namespaces (cluster w1)) as Hns
    by congruence.
  split; [exact Hns |]. split; [apply map_eq; exact Haccounts |].
  intros Hgcr Hecr. rewrite HgcrToken, HgcrToken' in Hgcr. rewrite HecrToken, HecrToken' in Hecr.
  injection Hgcr as ->. injection Hecr as ->.
  apply Cluster_eq; [exact Hns | | exact Haccounts].
  intros [ns n]. rewrite Hsec4, Hsec3, Hsec2, Hsec1.
  repeat match goal with
    | |- context [visits ?items ns && String.eqb n ?name] =>
        destruct (visits items ns && String.eqb n name)
    end; reflexivity.
Qed.

Lemma process_twice_witness :
  let first := process Sample.good defaultFlags (Sample.world Sample.teamA) in
  let second := process Sample.good defaultFlags first.2 in
  cluster second.2 = cluster first.2.
Proof.
  cbv zeta. set (w := Sample.world Sample.teamA).
  set (w1 := (process Sample.good defaultFlags w).2).
  destruct (process_twice Sample.good defaultFlags w w1
              (process Sample.good defaultFlags w1).2)
    as (_ & _ & Hsame); [vm_compute; reflexivity | vm_compute; reflexivity |].
  apply Hsame; reflexivity.
Defined.

(** ** The output and the requests of a run that succeeds *)

Lemma sameOutput_refl (w : World) : sameOutput w w.
Proof. split; reflexivity. Qed.

Lemma sameOutput_trans (w1 w2 w3 : World) :
  sameOutput w1 w2 → sameOutput w2 w3 → sameOutput w1 w3.
Proof. intros [H1 H2] [H3 H4]. split; congruence. Qed.

Lemma request_sameOutput (kube : kubeInterface) (call : ApiCall) :
  keeps sameOutput (request kube call).
Proof.
  intros w. destruct (request_spec kube call w) as (_ & _ & _ & Hlog & Hout & _).
  split; assumption.
Qed.

(** A fetch that gives a token logs and prints nothing. *)
Lemma TokenGenFxn_Ok_output (c : controller) (fl : Flags) (g : SecretGenerator)
    (token : AuthToken) (w w1 : World) :
  g ∈ secretGenerators c fl →
  TokenGenFxn g w = (Ok token, w1) → sameOutput w w1.
Proof.
  rewrite secretGenerators_eq. intros Hg.
  apply elem_of_cons in Hg as [->|Hg]; [| apply elem_of_cons in Hg as [->|Hg]].
  - cbn [gcrGenerator TokenGenFxn].
    unfold getGCRAuthorizationKey, bind, attempt, gcr_DefaultTokenSource, ts_Token.
    destruct (DefaultTokenSource _ _ _) as [e|[[e|t]]]; cbn; try discriminate.
    destruct (oauth2.Valid t); cbn; [| discriminate].
    destruct (String.eqb (oauth2.Type_ t) "Bearer"); cbn; [| discriminate].
    intros [= _ <-]. split; reflexivity.
  - cbn [ecrGenerator TokenGenFxn].
    unfold getECRAuthorizationKey, bind, attempt, ecr_GetAuthorizationToken.
    destruct (GetAuthorizationToken _ _ _) as [e|[entries]]; cbn; [discriminate |].
    destruct entries as [|[[[accessToken|] [endpoint|]]|] rest]; cbn; try discriminate.
    intros [= _ <-]. split; reflexivity.
  - apply elem_of_nil in Hg. contradiction.
Qed.

Lemma processGenerator_Ok_output (c : controller) (fl : Flags) (g : SecretGenerator)
    (w w' : World) :
  g ∈ secretGenerators c fl →
  processGenerator c g w = (Ok tt, w') →
  logOutput w' = logOutput w ++ ["Finished processing secret for: " +:+ SecretName g]
  ∧ stdOutput w' = stdOutput w.
Proof.
  intros Hg. rewrite processGenerator_unfold.
  destruct (TokenGenFxn g w) as [[token|e|p] w1] eqn:Htoken; try discriminate.
  apply (TokenGenFxn_Ok_output c fl g token w w1 Hg) in Htoken as [Hlog Hout].
  unfold bind at 1.
  match goal with |- context [bind ?m ?k w1] =>
    pose proof (namespaces_loop_keeps sameOutput sameOutput_refl sameOutput_trans
                  request_sameOutput (kubeClient c) (SecretName g)
                  (generateSecretObj (AccessToken token) (Endpoint token)
                     (IsJSONCfg g) (SecretName g)) w1) as [Hlog' Hout'];
    destruct (bind m k w1) as [[u|e|p] w2]
  end; try discriminate.
  unfold log_Print. intros [= <-]. cbn [snd addLog logOutput stdOutput] in *.
  split; congruence.
Qed.

(** X14.  A run that succeeds logs three lines and no more, the one at its
    start and one for each generator, with the name of its secret, and
    prints nothing on standard output. *)
Theorem process_success_output (c : controller) (fl : Flags) (w w' : World) :
  process c fl w = (Ok tt, w') →
  logOutput w'
  = logOutput w
    ++ [ "Processing Credentials...";
         "Finished processing secret for: " +:+ argGCRSecretName fl;
         "Finished processing secret for: " +:+ argAWSSecretName fl ]
  ∧ stdOutput w' = stdOutput w.
Proof.
  intros Hrun.
  apply process_Ok_passes in Hrun as (? & ? & w1 & _ & _ & Hgcr & Hecr & _).
  apply (processGenerator_Ok_output c fl) in Hgcr as [Hlog1 Hout1];
    [| rewrite secretGenerators_eq; left].
  apply (processGenerator_Ok_output c fl) in Hecr as [Hlog2 Hout2];
    [| rewrite secretGenerators_eq; right; left].
  cbn [gcrGenerator ecrGenerator SecretName addLog logOutput stdOutput] in *.
  split; [| congruence].
  rewrite Hlog2, Hlog1, <- !app_assoc. reflexivity.
Qed.

Lemma process_success_output_witness :
  logOutput (process Sample.good defaultFlags (Sample.world Sample.teamA)).2
  = [ "Processing Credentials...";
      "Finished processing secret for: gcr-secret";
      "Finished processing secret for: awsecr-cred" ].
Proof.
  destruct (process_success_output Sample.good defaultFlags (Sample.world Sample.teamA)
              (process Sample.good defaultFlags (Sample.world Sample.teamA)).2)
    as [Hlog _]; [vm_compute; reflexivity |].
  rewrite Hlog. reflexivity.
Defined.

Lemma request_length (kube : kubeInterface) (call : ApiCall) (w : World) :
  length (apiCalls (request kube call w).2) = S (length (apiCalls w)).
Proof.
  destruct (request_spec kube call w) as (Hcalls & _). rewrite Hcalls, length_app.
  simpl. lia.
Qed.

Lemma reconcileNamespace_Ok_length (kube : kubeInterface) (namespace secretName : string)
    (newSecret : Secret) (w w' : World) :
  reconcileNamespace kube namespace secretName newSecret w = (Ok tt, w') →
  length (apiCalls w') = length (apiCalls w) + 4.
Proof.
  unfold reconcileNamespace. intros H. apply bind_Ok in H as ([] & w1 & Hsecret & Haccount).
  destruct (reconcileSecret_calls kube namespace secretName newSecret w)
    as (write & _ & Hcalls).
  rewrite Hsecret in Hcalls. cbn [snd] in Hcalls.
  unfold reconcileServiceAccount, ServiceAccounts_Get, ServiceAccounts_Update in Haccount.
  apply bind_Ok in Haccount as (sa & w2 & Hget & Hput).
  apply bind_Ok in Hget as (reply & w3 & Hget & Hret). unfold ret in Hret.
  injection Hret as _ <-.
  apply bind_Ok in Hput as (reply' & w4 & Hput & Hret). unfold ret in Hret.
  injection Hret as <-.
  pose proof (request_length kube (ServiceAccountsGet namespace "default") w1) as Hlen1.
  rewrite Hget in Hlen1.
  match type of Hput with request kube ?call w3 = _ =>
    pose proof (request_length kube call w3) as Hlen2; rewrite Hput in Hlen2
  end.
  cbn [snd] in *. rewrite Hlen2, Hlen1, Hcalls, length_app. simpl. lia.
Qed.

Lemma forEach_processNamespace_Ok_length (kube : kubeInterface) (secretName : string)
    (newSecret : Secret) (items : list Namespace) (w w' : World) :
  forEach items (processNamespace kube secretName newSecret) w = (Ok tt, w') →
  length (apiCalls w') = length (apiCalls w) + 4 * length (reconciledNamespaces items).
Proof.
  revert w. induction items as [|x items IH]; intros w H; simpl in H.
  - unfold ret in H. injection H as <-. simpl. lia.
  - apply bind_Ok in H as ([] & w1 & Hx & Hrest). apply IH in Hrest.
    unfold processNamespace in Hx. unfold reconciledNamespaces in *. cbn [List.filter].
    destruct (String.eqb (GetName x) "kube-system"); cbn [negb].
    + unfold ret in Hx. injection Hx as <-. exact Hrest.
    + apply reconcileNamespace_Ok_length in Hx. cbn [length]. lia.
Qed.

Lemma processGenerator_Ok_length (c : controller) (fl : Flags) (g : SecretGenerator)
    (w w' : World) :
  g ∈ secretGenerators c fl →
  processGenerator c g w = (Ok tt, w') →
  length (apiCalls w')
  = length (apiCalls w) + 1 + 4 * length (reconciledNamespaces (namespaces (cluster w))).
Proof.
  intros Hg H. unfold processGenerator in H.
  apply bind_Ok in H as (token & wa & Htoken & H).
  apply bind_Ok in H as (items & wb & Hlist & H).
  apply bind_Ok in H as ([] & wc & Hloop & Hlog).
  unfold log_Print in Hlog. injection Hlog as <-.
  pose proof (TokenGenFxn_quiet c fl g Hg w) as [Hcluster Hcalls].
  rewrite Htoken in Hcluster, Hcalls. cbn [snd] in Hcluster, Hcalls.
  pose proof (Namespaces_List_Ok _ _ _ _ Hlist) as [-> _].
  unfold Namespaces_List in Hlist. apply bind_Ok in Hlist as (reply & wd & Hreq & Hret).
  unfold ret in Hret. injection Hret as _ <-.
  pose proof (request_length (kubeClient c) NamespacesList wa) as Hlen.
  rewrite Hreq in Hlen. cbn [snd] in Hlen.
  apply forEach_processNamespace_Ok_length in Hloop.
  cbn [addLog apiCalls]. rewrite Hloop, Hlen, Hcalls, Hcluster. lia.
Qed.

(** X15.  A run that succeeds makes, for each of the two generators, one
    request for the list of the namespaces and four requests for every
    namespace other than kube-system (the get and the write of the secret,
    the get and the update of the service account): two plus eight times
    the number of these namespaces in all. *)
Theorem process_success_requests (c : controller) (fl : Flags) (w w' : World) :
  process c fl w = (Ok tt, w') →
  length (apiCalls w')
  = length (apiCalls w) + 2 + 8 * length (reconciledNamespaces (namespaces (cluster w))).
Proof.
  intros Hrun.
  apply process_Ok_passes in Hrun as (? & ? & w1 & _ & _ & Hgcr & Hecr & Hpass & _).
  destruct Hpass as (Hns & _).
  apply (processGenerator_Ok_length c fl) in Hgcr; [| rewrite secretGenerators_eq; left].
  apply (processGenerator_Ok_length c fl) in Hecr;
    [| rewrite secretGenerators_eq; right; left].
  cbn [addLog apiCalls cluster] in Hgcr. rewrite Hns in Hecr. lia.
Qed.

Lemma process_success_requests_witness :
  length (apiCalls (process Sample.good defaultFlags (Sample.world Sample.teamA)).2) = 10.
Proof.
  rewrite (process_success_requests Sample.good defaultFlags (Sample.world Sample.teamA)
             (process Sample.good defaultFlags (Sample.world Sample.teamA)).2);
    [reflexivity | vm_compute; reflexivity].
Defined.

(** ** The parameters from the environment *)

Lemma length_eqb_0 (s : string) : Nat.eqb (String.length s) 0 = String.eqb s "".
Proof. destruct s; reflexivity. Qed.

Lemma length_ltb_0 (s : string) : Nat.ltb 0 (String.length s) = negb (String.eqb s "").
Proof. destruct s; reflexivity. Qed.

(** X16.  [validateParams] takes the account id from the variable
    awsaccount, whatever the flags held, and lets the variable awsregion
    replace the region flag when it is not empty; an empty variable and one
    that is not set leave the flag.  No other flag changes, the line about
    the missing account is logged exactly when the account id is empty,
    and a second call gives the same flags.  With it, the first lines of
    [main] log what [startup] logs for the flags that come out. *)
Theorem validateParams_flags (getenv : string → string) (fl : Flags) (w : World) :
  ∃ fl',
    validateParams getenv fl w
    = (Ok fl',
       if String.eqb (getenv "awsaccount") ""
       then addLog "Missing awsaccount env variable, assuming GCR usage" w
       else w)
    ∧ awsAccountID fl' = getenv "awsaccount"
    ∧ argAWSRegion fl'
      = (if String.eqb (getenv "awsregion") "" then argAWSRegion fl
         else getenv "awsregion")
    ∧ argAWSSecretName fl' = argAWSSecretName fl
    ∧ argGCRSecretName fl' = argGCRSecretName fl
    ∧ argGCRURL fl' = argGCRURL fl
    ∧ argRefreshMinutes fl' = argRefreshMinutes fl
    ∧ (validateParams getenv fl' w).1 = Ok fl'
    ∧ mainPrologue getenv fl w = (Ok fl', (startup fl' w).2).
Proof.
  eexists. split.
  - unfold validateParams, bind, log_Print, ret. rewrite length_eqb_0.
    destruct (String.eqb (getenv "awsaccount") ""); reflexivity.
  - cbn [awsAccountID argAWSRegion argAWSSecretName argGCRSecretName argGCRURL
           argRefreshMinutes].
    rewrite length_ltb_0.
    repeat split.
    + destruct (String.eqb (getenv "awsregion") ""); reflexivity.
    + unfold validateParams, bind, log_Print, ret. rewrite length_eqb_0, !length_ltb_0.
      cbn [awsAccountID argAWSRegion argAWSSecretName argGCRSecretName argGCRURL
             argRefreshMinutes].
      destruct (String.eqb (getenv "awsaccount") "");
        destruct (String.eqb (getenv "awsregion") ""); reflexivity.
    + unfold mainPrologue, startup, validateParams, bind, log_Print, ret.
      rewrite length_eqb_0, !length_ltb_0.
      cbn [awsAccountID argAWSRegion argAWSSecretName argGCRSecretName argGCRURL
             argRefreshMinutes].
      destruct (String.eqb (getenv "awsaccount") ""); reflexivity.
Qed.

(** The region of the environment, and the account id left out. *)
Example validateParams_flags_region :
  let getenv name := if String.eqb name "awsregion" then "eu-west-1" else "" in
  let run := validateParams getenv defaultFlags (Sample.world Sample.teamA) in
  (argAWSRegion <$> match run.1 with Ok fl' => Some fl' | _ => None end) = Some "eu-west-1"
  ∧ logOutput run.2 = ["Missing awsaccount env variable, assuming GCR usage"].
Proof. vm_compute. split; reflexivity. Qed.

(** ** Create or update *)

(** X17.  With a kube client that adds no failure, the step for the secret
    always succeeds, with two requests: the get, then the create when the
    namespace had no secret of that name and the update when it had one.
    Either way the secret of that name is then the new one, whatever was
    stored before. *)
Theorem reconcileSecret_create_or_update (kube : kubeInterface) (namespace : string)
    (newSecret : Secret) (w : World) :
  (∀ n call, apiFault kube n call = None) →
  ∃ w',
    reconcileSecret kube namespace (secret_Name newSecret) newSecret w = (Ok tt, w')
    ∧ apiCalls w'
      = apiCalls w
        ++ [ SecretsGet namespace (secret_Name newSecret);
             match secrets (cluster w) !! (namespace, secret_Name newSecret) with
             | Some _ => SecretsUpdate namespace newSecret
             | None => SecretsCreate namespace newSecret
             end ]
    ∧ secrets (cluster w')
      = <[(namespace, secret_Name newSecret) := newSecret]> (secrets (cluster w))
    ∧ serviceAccounts (cluster w') = serviceAccounts (cluster w).
Proof.
  intros Hkube.
  unfold reconcileSecret, Secrets_Get, Secrets_Create, Secrets_Update, attempt.
  unfold bind at 1 2. rewrite (request_faultless kube Hkube). cbn [serve].
  destruct (secrets (cluster w) !! (namespace, secret_Name newSecret)) as [old|] eqn:Hold;
    cbn [ret]; unfold bind; rewrite (request_faultless kube Hkube);
    cbn [serve setCluster recordCall cluster]; rewrite Hold; eexists;
    (split; [reflexivity |]); simpl; rewrite <- app_assoc; repeat split.
Qed.

Lemma reconcileSecret_create_or_update_witness :
  let newSecret := generateSecretObj "gcr-token" "https://gcr.io" false "gcr-secret" in
  (apiCalls (reconcileSecret Sample.noFaults "team-a" "gcr-secret" newSecret
               (Sample.world Sample.teamA)).2
   = [SecretsGet "team-a" "gcr-secret"; SecretsCreate "team-a" newSecret])
  ∧ (apiCalls (reconcileSecret Sample.noFaults "team-a" "gcr-secret" newSecret
                 (Sample.world Sample.teamAStale)).2
     = [SecretsGet "team-a" "gcr-secret"; SecretsUpdate "team-a" newSecret]).
Proof.
  cbv zeta.
  set (newSecret := generateSecretObj "gcr-token" "https://gcr.io" false "gcr-secret").
  split.
  - destruct (reconcileSecret_create_or_update Sample.noFaults "team-a" newSecret
                (Sample.world Sample.teamA)) as (w' & Hstep & Hcalls & _);
      [reflexivity |].
    change (secret_Name newSecret) with "gcr-secret" in Hstep.
    rewrite Hstep. exact Hcalls.
  - destruct (reconcileSecret_create_or_update Sample.noFaults "team-a" newSecret
                (Sample.world Sample.teamAStale)) as (w' & Hstep & Hcalls & _);
      [reflexivity |].
    change (secret_Name newSecret) with "gcr-secret" in Hstep.
    rewrite Hstep. exact Hcalls.
Defined.

(** ** What a run never removes *)

Lemma nothingRemoved_refl (w : World) : nothingRemoved w w.
Proof. split; [reflexivity |]. split; intros key; tauto. Qed.

Lemma nothingRemoved_trans (w1 w2 w3 : World) :
  nothingRemoved w1 w2 → nothingRemoved w2 w3 → nothingRemoved w1 w3.
Proof.
  intros (Hn1 & Ha1 & Hs1) (Hn2 & Ha2 & Hs2). split; [congruence |]. split.
  - intros key. rewrite Ha2. apply Ha1.
  - intros key H. apply Hs2, Hs1, H.
Qed.

Lemma serve_nothingRemoved (call : ApiCall) (cl : Cluster) :
  namespaces (serve call cl).2 = namespaces cl
  ∧ (∀ key, is_Some (serviceAccounts (serve call cl).2 !! key)
            ↔ is_Some (serviceAccounts cl !! key))
  ∧ (∀ key, is_Some (secrets cl !! key) → is_Some (secrets (serve call cl).2 !! key)).
Proof.
  destruct call as [|ns name|ns s|ns s|ns name|ns sa]; cbn [serve].
  - repeat split; tauto.
  - destruct (secrets cl !! (ns, name)); repeat split; tauto.
  - destruct (secrets cl !! (ns, secret_Name s)) eqn:Hkey; cbn;
      (split; [reflexivity |]); split; try tauto.
    intros key Hsome. rewrite lookup_insert. case_decide; [eexists; reflexivity | exact Hsome].
  - destruct (secrets cl !! (ns, secret_Name s)) eqn:Hkey; cbn;
      (split; [reflexivity |]); split; try tauto.
    intros key Hsome. rewrite lookup_insert. case_decide; [eexists; reflexivity | exact Hsome].
  - destruct (serviceAccounts cl !! (ns, name)); repeat split; tauto.
  - destruct (serviceAccounts cl !! (ns, sa_Name sa)) eqn:Hkey; cbn;
      (split; [reflexivity |]); split; try tauto.
    intros key. rewrite lookup_insert. case_decide as Heq; [| tauto].
    subst key. rewrite Hkey. split; intros _; eexists; reflexivity.
Qed.

Lemma nothingRemoved_same (w w' : World) : cluster w' = cluster w → nothingRemoved w w'.
Proof.
  intros H. unfold nothingRemoved. rewrite H. split; [reflexivity |].
  split; intros key; tauto.
Qed.

Lemma request_nothingRemoved (kube : kubeInterface) (call : ApiCall) :
  keeps nothingRemoved (request kube call).
Proof.
  intros w. unfold request.
  destruct (apiFault kube (length (apiCalls w)) call);
    [apply nothingRemoved_same; reflexivity |].
  pose proof (serve_nothingRemoved call (cluster w)) as H.
  destruct (serve call (cluster w)) as [[e|reply] cl];
    [apply nothingRemoved_same; reflexivity |].
  exact H.
Qed.

Lemma quiet_nothingRemoved {A} (m : M A) : keeps quiet m → keeps nothingRemoved m.
Proof.
  intros Hm w. destruct (Hm w) as [Hcluster _]. apply nothingRemoved_same. exact Hcluster.
Qed.

(** X18.  Whatever the outcome of a run and whatever the clients do, the
    run takes nothing from the cluster: the namespaces are the same, no
    service account is made or removed, and every secret that was there
    is still there (under any name, in any namespace). *)
Theorem process_removes_nothing (c : controller) (fl : Flags) (w : World) :
  namespaces (cluster (process c fl w).2) = namespaces (cluster w)
  ∧ (∀ key, is_Some (serviceAccounts (cluster (process c fl w).2) !! key)
            ↔ is_Some (serviceAccounts (cluster w) !! key))
  ∧ (∀ key, is_Some (secrets (cluster w) !! key)
            → is_Some (secrets (cluster (process c fl w).2) !! key)).
Proof.
  assert (keeps nothingRemoved (process c fl)) as Hkeeps.
  { unfold process.
    keeps_structure nothingRemoved_refl nothingRemoved_trans.
    - apply quiet_nothingRemoved, log_Print_quiet.
    - apply keeps_forEach; [apply nothingRemoved_refl | apply nothingRemoved_trans |].
      intros g Hg. unfold processGenerator.
      apply (keeps_bind _ nothingRemoved_trans);
        [apply quiet_nothingRemoved; exact (TokenGenFxn_quiet c fl g Hg) |].
      intros token.
      pose proof (namespaces_loop_keeps nothingRemoved nothingRemoved_refl
                    nothingRemoved_trans request_nothingRemoved (kubeClient c)
                    (SecretName g)
                    (generateSecretObj (AccessToken token) (Endpoint token)
                       (IsJSONCfg g) (SecretName g))) as Hloop.
      intros w1. specialize (Hloop w1). unfold bind in *.
      destruct (Namespaces_List (kubeClient c) w1) as [[items|e|p] w2]; try exact Hloop.
      destruct (forEach items _ w2) as [[u|e|p] w3]; exact Hloop. }
  exact (Hkeeps w).
Qed.
